(** * ohlcv-hub: provider routing, fallback and candle normalisation

    A shallow embedding of the Python package [ohlcv_hub]:

    - [models.py]            the [Candle] dataclass and its [__post_init__];
    - [providers/base.py]    the [OHLCVProvider] interface;
    - [providers/*.py]       the Binance, yfinance, Tiingo and Finnhub providers;
    - [registry.py]          [pick] (symbol routing) and [fetch] (the fallback walk).

    Python exceptions are values of [exn] carried by the result type [pyres];
    everything outside the package (the upstream services, the process
    environment, the literal grammars of the Python runtime) is gathered
    in the record [World], which every provider reads but never writes.
    Symbols are modelled as ASCII strings. *)

From Stdlib Require Import ZArith String Ascii List Bool Lia SpecFloat.
From stdpp Require Import base option list gmap strings sorting.

Open Scope string_scope.
Open Scope list_scope.
Open Scope Z_scope.

(* ===================================================================== *)
(** ** The Python runtime: exceptions, values, conversions               *)
(* ===================================================================== *)

Module py.

(** The exception classes that the package raises, catches or lets through. *)
Inductive exn : Type :=
  | ValueError
  | KeyError
  | IndexError
  | TypeError
  | OverflowError
  | RuntimeError
  | ClientError          (* aiohttp.ClientError, raised by a broken connection *)
  | FrozenInstanceError. (* dataclasses.FrozenInstanceError *)

#[global] Instance exn_eq_dec : EqDecision exn.
Proof. solve_decision. Defined.

(** An expression either evaluates to a value or raises. *)
Inductive pyres (A : Type) : Type :=
  | Ok (a : A)
  | Raise (e : exn).

Arguments Ok {A} a.
Arguments Raise {A} e.

#[global] Instance pyres_ret : MRet pyres := fun A a => Ok a.

#[global] Instance pyres_bind : MBind pyres := fun A B k m =>
  match m with
  | Ok a => k a
  | Raise e => Raise e
  end.

(** A Python [float] is an IEEE-754 binary64 number: the Standard Library's
    [spec_float] at precision 53 and maximal exponent 1024. *)
Definition float : Type := spec_float.

Definition prec : Z := 53.
Definition emax : Z := 1024.

Definition is_nan (f : float) : bool :=
  match f with
  | S754_nan => true
  | _ => false
  end.

(** [float(z)] for an [int]: rounds to nearest-even, [OverflowError] when
    the integer is too large for a binary64. *)
Definition float_of_int (z : Z) : pyres float :=
  match binary_normalize prec emax z 0 false with
  | S754_infinity _ => Raise OverflowError
  | f => Ok f
  end.

(** [int(f)] for a [float]: truncation towards zero. *)
Definition int_of_float (f : float) : pyres Z :=
  match f with
  | S754_nan => Raise ValueError
  | S754_infinity _ => Raise OverflowError
  | S754_zero _ => Ok 0
  | S754_finite s m e =>
      let magnitude :=
        match e with
        | Zneg k => Z.shiftr (Zpos m) (Zpos k)
        | _ => Z.shiftl (Zpos m) e
        end in
      Ok (if s then - magnitude else magnitude)
  end.

(** [x * y] and [x + y] on floats: rounded to nearest, never raising. *)
Definition float_mul (x y : float) : float := SFmul prec emax x y.
Definition float_add (x y : float) : float := SFadd prec emax x y.

(** [int(limit * factor + 5)] for an [int] limit and a [float] factor:
    the limit is converted to a float, the sum is truncated. *)
Definition five : float := S754_finite false 5629499534213120 (-50).

Definition headroom (limit : Z) (factor : float) : pyres Z :=
  match float_of_int limit with
  | Ok f => int_of_float (float_add (float_mul f factor) five)
  | Raise e => Raise e
  end.

(** A [timedelta] of whole seconds, and [delta * n]: the product must
    stay within [timedelta.min] and [timedelta.max]. *)
Definition timedelta_mul (delta n : Z) : pyres Z :=
  let d := delta * n in
  if (-86399999913600 <=? d) && (d <=? 86399999999999) then Ok d
  else Raise OverflowError.

(** A [datetime] in UTC, as POSIX seconds, and [t - delta]: the result
    must stay within the years 1 to 9999. *)
Definition datetime_sub (t delta : Z) : pyres Z :=
  let r := t - delta in
  if (-62135596800 <=? r) && (r <=? 253402300799) then Ok r
  else Raise OverflowError.

(** The scalars found in decoded JSON documents and data-frame cells. *)
Inductive pyval : Type :=
  | PNone
  | PBool (b : bool)
  | PInt (z : Z)
  | PFloat (f : float)
  | PStr (s : string).

(** Truth value of an object, as [if x], [x or y] and [not x] test it.
    A NaN is true: only the two zeros are false among floats. *)
Definition truthy (v : pyval) : bool :=
  match v with
  | PNone => false
  | PBool b => b
  | PInt z => negb (z =? 0)
  | PFloat (S754_zero _) => false
  | PFloat _ => true
  | PStr s => negb (String.eqb s "")
  end.

(** [row[i]] on a list. *)
Definition getitem {A : Type} (l : list A) (i : nat) : pyres A :=
  match l !! i with
  | Some a => Ok a
  | None => Raise IndexError
  end.

(** [d[k]] and [d.get(k)] on a dict with string keys. *)
Definition dict_getitem {A : Type} (d : gmap string A) (k : string) : pyres A :=
  match d !! k with
  | Some a => Ok a
  | None => Raise KeyError
  end.

Definition dict_get (d : gmap string pyval) (k : string) : pyval :=
  match d !! k with
  | Some v => v
  | None => PNone
  end.

(** [l[start:]]: a negative [start] counts from the end, and both ends
    are clamped to the list. *)
Definition slice_from {A : Type} (start : Z) (l : list A) : list A :=
  if start <? 0
  then drop (Z.to_nat (Z.max 0 (Z.of_nat (length l) + start))) l
  else drop (Z.to_nat start) l.

(** [str.upper()] on ASCII text. *)
Definition upper_ascii (c : ascii) : ascii :=
  let n := nat_of_ascii c in
  if ((97 <=? n) && (n <=? 122))%nat then ascii_of_nat (n - 32) else c.

Fixpoint upper (s : string) : string :=
  match s with
  | EmptyString => EmptyString
  | String c s' => String (upper_ascii c) (upper s')
  end.

(** [s.replace(c, "")] for a one-character [c]. *)
Fixpoint remove_char (c : ascii) (s : string) : string :=
  match s with
  | EmptyString => EmptyString
  | String a s' =>
      if Ascii.eqb a c then remove_char c s' else String a (remove_char c s')
  end.

(** [str.isspace] on ASCII: tab to carriage return, the four separators
    FS, GS, RS, US, and the space. *)
Definition is_space (c : ascii) : bool :=
  let n := nat_of_ascii c in
  (((9 <=? n) && (n <=? 13)) || ((28 <=? n) && (n <=? 32)))%nat.

Fixpoint lstrip (s : string) : string :=
  match s with
  | EmptyString => EmptyString
  | String a s' => if is_space a then lstrip s' else s
  end.

Fixpoint rstrip (s : string) : string :=
  match s with
  | EmptyString => EmptyString
  | String a s' =>
      match rstrip s' with
      | EmptyString => if is_space a then EmptyString else String a EmptyString
      | t => String a t
      end
  end.

Definition strip (s : string) : string := rstrip (lstrip s).

(** [s.endswith(suffix)], [s[:n]] and [s[n:]] for [0 <= n]. *)
Definition endswith (s suffix : string) : bool :=
  let n := String.length s in
  let k := String.length suffix in
  ((k <=? n)%nat && String.eqb (String.substring (n - k) k s) suffix).

Definition str_take (n : nat) (s : string) : string := String.substring 0 n s.

Definition str_drop (n : nat) (s : string) : string :=
  String.substring n (String.length s - n) s.

End py.

Export py.

(* ===================================================================== *)
(** ** Regular expressions, as the [re] module matches them              *)
(* ===================================================================== *)

Module re.

(** The fragment of the pattern language that the package uses:
    literal characters, character ranges, sequence, alternation and
    repetition. *)
Inductive regex : Type :=
  | Void
  | Eps
  | Chr (c : ascii)
  | Rng (lo hi : ascii)
  | Seq (r1 r2 : regex)
  | Alt (r1 r2 : regex)
  | Star (r : regex).

Definition in_range (lo hi c : ascii) : bool :=
  ((nat_of_ascii lo <=? nat_of_ascii c) && (nat_of_ascii c <=? nat_of_ascii hi))%nat.

(** Matching by derivatives. *)
Fixpoint nullable (r : regex) : bool :=
  match r with
  | Void => false
  | Eps => true
  | Chr _ => false
  | Rng _ _ => false
  | Seq r1 r2 => nullable r1 && nullable r2
  | Alt r1 r2 => nullable r1 || nullable r2
  | Star _ => true
  end.

Fixpoint deriv (a : ascii) (r : regex) : regex :=
  match r with
  | Void => Void
  | Eps => Void
  | Chr c => if Ascii.eqb a c then Eps else Void
  | Rng lo hi => if in_range lo hi a then Eps else Void
  | Seq r1 r2 =>
      if nullable r1
      then Alt (Seq (deriv a r1) r2) (deriv a r2)
      else Seq (deriv a r1) r2
  | Alt r1 r2 => Alt (deriv a r1) (deriv a r2)
  | Star r1 => Seq (deriv a r1) (Star r1)
  end.

Fixpoint accepts (r : regex) (s : string) : bool :=
  match s with
  | EmptyString => nullable r
  | String a s' => accepts (deriv a r) s'
  end.

(** A literal word, [r{n}], [r{0,n}], [r{m,n}] and [r{m,}]. *)
Fixpoint word (s : string) : regex :=
  match s with
  | EmptyString => Eps
  | String c s' => Seq (Chr c) (word s')
  end.

Fixpoint times (n : nat) (r : regex) : regex :=
  match n with
  | O => Eps
  | S n' => Seq r (times n' r)
  end.

Fixpoint upto (n : nat) (r : regex) : regex :=
  match n with
  | O => Eps
  | S n' => Alt Eps (Seq r (upto n' r))
  end.

Definition between (m n : nat) (r : regex) : regex :=
  Seq (times m r) (upto (n - m) r).

Definition at_least (m : nat) (r : regex) : regex :=
  Seq (times m r) (Star r).

Fixpoint any_of (rs : list regex) : regex :=
  match rs with
  | [] => Void
  | [r] => r
  | r :: rs' => Alt r (any_of rs')
  end.

(** [$] without the MULTILINE flag: the end of the string, or just
    before a newline that ends the string. *)
Definition newline : ascii := ascii_of_nat 10.

Definition dollar : regex := Alt Eps (Chr newline).

(** [re.compile("^" body "$")]: a pattern anchored at both ends.
    [pattern.match(s)] looks for a match that starts at the first
    character, so for an anchored pattern it succeeds exactly when the
    whole of [s] is the body followed by what [$] allows. *)
Definition compile (body : regex) : regex := Seq body dollar.

Definition match_ (pattern : regex) (s : string) : bool := accepts pattern s.

(** The language of a pattern, against which [accepts] is proved correct. *)
Inductive lang : regex -> string -> Prop :=
  | lang_eps : lang Eps EmptyString
  | lang_chr c : lang (Chr c) (String c EmptyString)
  | lang_rng lo hi c : in_range lo hi c = true -> lang (Rng lo hi) (String c EmptyString)
  | lang_seq r1 r2 s1 s2 : lang r1 s1 -> lang r2 s2 -> lang (Seq r1 r2) (s1 +:+ s2)
  | lang_alt_l r1 r2 s : lang r1 s -> lang (Alt r1 r2) s
  | lang_alt_r r1 r2 s : lang r2 s -> lang (Alt r1 r2) s
  | lang_star_nil r : lang (Star r) EmptyString
  | lang_star_cons r s1 s2 : lang r s1 -> lang (Star r) s2 -> lang (Star r) (s1 +:+ s2).

Definition upper_letter : regex := Rng "A" "Z".
Definition digit : regex := Rng "0" "9".

End re.

(* ===================================================================== *)
(** ** The world outside the package                                     *)
(* ===================================================================== *)

(** A row of the decoded reply.  Binance sends arrays of numbers and
    strings, but the provider subscripts whatever was decoded: a row may
    as well be a JSON object or a scalar.  An entry that is itself an
    array or an object is refused by [int] and [float] with a
    [TypeError], as [None] is, and is not told apart from it. *)
Inductive kline : Type :=
  | KArray (items : list pyval)
  | KObject (fields : gmap string pyval)
  | KScalar (v : pyval).

(** [row[i]] for an [int] [i] that is not negative: an array is indexed,
    an object has no integer key, a string gives its [i]-th character,
    and nothing else can be subscripted. *)
Definition subscript (row : kline) (i : nat) : pyres pyval :=
  match row with
  | KArray items => getitem items i
  | KObject _ => Raise KeyError
  | KScalar (PStr s) =>
      match String.get i s with
      | Some c => Ok (PStr (String c EmptyString))
      | None => Raise IndexError
      end
  | KScalar _ => Raise TypeError
  end.

(** What [session.get] hands back once the body is decoded. *)
Record http_response : Type := {
  status : Z;
  json : list kline
}.

(** A pandas data frame, row by row: the index entry, as the POSIX
    seconds that [ts.timestamp()] returns, and the cells by column. *)
Definition DataFrame : Type := list (float * gmap string pyval).

(** [df.tail(n)]: the last [n] rows, none for [n = 0], and all but the
    first [-n] rows for a negative [n]. *)
Definition tail (n : Z) (df : DataFrame) : DataFrame :=
  if n =? 0 then [] else slice_from (- n) df.

(** A Finnhub candle reply, by its array-valued entries ["t"], ["o"],
    ["h"], ["l"], ["c"], ["v"].  The status entry ["s"], which
    [_fetch_stock] and [_fetch_forex] require to be ["ok"], is left out:
    a reply that is present is therefore never an empty dict. *)
Definition finnhub_reply : Type := gmap string (list pyval).

Record World : Type := {
  (** [float(s)] and [int(s)] on a string: [None] stands for [ValueError]. *)
  float_of_str : string -> option float;
  int_of_str : string -> option Z;
  (** [datetime.fromisoformat(s)], as the POSIX seconds of the parsed
      instant: [None] stands for [ValueError]. *)
  fromisoformat : string -> option float;
  (** [os.getenv]. *)
  getenv : string -> option string;
  (** The clock, in whole POSIX seconds: [int(time.time())], and
      [datetime.now(timezone.utc)]. *)
  now : Z;
  (** GET /api/v3/klines with [symbol], [interval], [limit]. *)
  binance_klines : string -> string -> Z -> pyres http_response;
  (** [YFinanceProvider._download], given the ticker, the yfinance
      interval and the start. *)
  yfinance_download : string -> string -> Z -> option DataFrame;
  (** [TiingoProvider._download], given the ticker, the resample
      frequency, the start and the key. *)
  tiingo_download : string -> string -> Z -> string -> option (list (gmap string pyval));
  (** [finnhub.Client(api_key).stock_candles] and [.forex_candles], given
      the symbol, the resolution, the two ends of the time window and the
      key; [None] for an exception, an empty reply or a status other than
      ["ok"], as [_fetch_stock] and [_fetch_forex] filter them. *)
  finnhub_stock_candles : string -> string -> Z -> Z -> string -> option finnhub_reply;
  finnhub_forex_candles : string -> string -> Z -> Z -> string -> option finnhub_reply
}.

Definition one : float := S754_finite false 4503599627370496 (-52).
Definition zero : float := S754_zero false.

(** The literals [1.2] and [1.3]. *)
Definition f1_2 : float := S754_finite false 5404319552844595 (-52).
Definition f1_3 : float := S754_finite false 5854679515581645 (-52).

(** The builtins [float(v)] and [int(v)]. *)
Definition py_float (w : World) (v : pyval) : pyres float :=
  match v with
  | PNone => Raise TypeError
  | PBool b => Ok (if b then one else zero)
  | PInt z => float_of_int z
  | PFloat f => Ok f
  | PStr s =>
      match float_of_str w s with
      | Some f => Ok f
      | None => Raise ValueError
      end
  end.

Definition py_int (w : World) (v : pyval) : pyres Z :=
  match v with
  | PNone => Raise TypeError
  | PBool b => Ok (if b then 1 else 0)
  | PInt z => Ok z
  | PFloat f => int_of_float f
  | PStr s =>
      match int_of_str w s with
      | Some z => Ok z
      | None => Raise ValueError
      end
  end.

(** [try: candles.append(build(row)) except caught: continue], over all
    rows: a row whose exception is caught is skipped, any other
    exception leaves the loop. *)
Fixpoint collect {R A : Type} (caught : exn -> bool) (build : R -> pyres A)
    (rows : list R) (candles : list A) : pyres (list A) :=
  match rows with
  | [] => Ok candles
  | row :: rest =>
      match build row with
      | Ok c => collect caught build rest (candles ++ [c])
      | Raise e => if caught e then collect caught build rest candles else Raise e
      end
  end.

(** [[build(row) for row in rows]]: nothing is caught. *)
Fixpoint comprehension {R A : Type} (build : R -> pyres A) (rows : list R) : pyres (list A) :=
  match rows with
  | [] => Ok []
  | row :: rest =>
      c ← build row;
      cs ← comprehension build rest;
      Ok (c :: cs)
  end.

(** [x or None] for a list [x]. *)
Definition or_none {A : Type} (l : list A) : option (list A) :=
  match l with
  | [] => None
  | _ => Some l
  end.

(** For a hypothesis [H] saying that a chain of binds evaluates to [Ok]:
    every step of the chain did, which names the intermediate values. *)
Ltac invert_binds H :=
  repeat match type of H with
         | mbind ?k ?m = Ok ?y =>
             let x := fresh "x" in
             let Hx := fresh "Hx" in
             destruct m as [x | ?] eqn:Hx;
             [change (k x = Ok y) in H; cbv beta in H | discriminate H]
         end.

(* ===================================================================== *)
(** ** models.py                                                         *)
(* ===================================================================== *)

Module models.

Record Candle : Type := {
  time : Z;
  open : float;
  high : float;
  low : float;
  close : float;
  volume : float
}.

Definition __post_init__ (self : Candle) : pyres unit :=
  if SFltb (high self) (low self) then Raise ValueError
  else if time self <=? 0 then Raise ValueError
  else Ok tt.

(** [Candle(time=..., open=..., high=..., low=..., close=..., volume=...)]:
    the generated [__init__] stores the six fields as given and then runs
    [__post_init__]. *)
Definition new (time : Z) (open high low close volume : float) : pyres Candle :=
  let self := {| time := time; open := open; high := high; low := low;
                 close := close; volume := volume |} in
  _ ← __post_init__ self;
  Ok self.

(** [@dataclass(slots=True, frozen=True)]: the generated [__setattr__]
    and [__delattr__] refuse the name of a field with a
    [FrozenInstanceError].  With any other name they go on to
    [super(cls, self)], where [cls] is still the class that [slots=True]
    has replaced: a [TypeError], since [self] is no instance of it.
    Neither ever changes the candle. *)
Definition field_names : list string :=
  ["time"; "open"; "high"; "low"; "close"; "volume"].

Definition __setattr__ (self : Candle) (name : string) (value : pyval) : pyres Candle :=
  if bool_decide (name ∈ field_names) then Raise FrozenInstanceError
  else Raise TypeError.

Definition __delattr__ (self : Candle) (name : string) : pyres Candle :=
  if bool_decide (name ∈ field_names) then Raise FrozenInstanceError
  else Raise TypeError.

End models.

Export models.

(* ===================================================================== *)
(** ** providers/base.py                                                 *)
(* ===================================================================== *)

Module base.

(** The abstract base class: an object with a name and the two methods. *)
Record OHLCVProvider : Type := {
  name : string;
  supports : string -> bool;
  fetch : World -> string -> string -> Z -> pyres (option (list Candle))
}.

End base.

(* ===================================================================== *)
(** ** providers/binance.py                                              *)
(* ===================================================================== *)

Module binance.

Definition _VALID_INTERVALS : gset string :=
  list_to_set ["1m"; "3m"; "5m"; "15m"; "30m"; "1h"; "2h"; "4h"; "6h"; "8h";
               "12h"; "1d"; "3d"; "1w"; "1M"].

(** [^[A-Z]{2,}(USDT|USDC|BTC|ETH|BNB|BUSD|FDUSD)$] *)
Definition _CRYPTO_RE : re.regex :=
  re.compile
    (re.Seq (re.at_least 2 re.upper_letter)
            (re.any_of (map re.word ["USDT"; "USDC"; "BTC"; "ETH"; "BNB"; "BUSD"; "FDUSD"]))).

Definition _normalise (symbol : string) : string :=
  strip (remove_char "-" (remove_char "/" (upper symbol))).

Definition supports (symbol : string) : bool :=
  re.match_ _CRYPTO_RE (_normalise symbol).

(** One element of the list comprehension: the arguments of [Candle] are
    evaluated from left to right. *)
Definition candle_of_row (w : World) (row : kline) : pyres Candle :=
  r0 ← subscript row 0; t ← py_int w r0;
  r1 ← subscript row 1; o ← py_float w r1;
  r2 ← subscript row 2; h ← py_float w r2;
  r3 ← subscript row 3; l ← py_float w r3;
  r4 ← subscript row 4; c ← py_float w r4;
  r5 ← subscript row 5; v ← py_float w r5;
  models.new (t / 1000) o h l c v.

Definition fetch (w : World) (symbol interval : string) (limit : Z)
    : pyres (option (list Candle)) :=
  let ticker := _normalise symbol in
  if negb (bool_decide (interval ∈ _VALID_INTERVALS)) then Ok None
  else
    resp ← binance_klines w ticker interval (Z.min limit 1000);
    if negb (status resp =? 200) then Ok None
    else
      let data := json resp in
      match data with
      | [] => Ok None
      | _ => candles ← comprehension (candle_of_row w) data; Ok (Some candles)
      end.

Definition BinanceProvider : base.OHLCVProvider :=
  {| base.name := "binance"; base.supports := supports; base.fetch := fetch |}.

End binance.

(* ===================================================================== *)
(** ** providers/yfinance.py                                             *)
(* ===================================================================== *)

Module yfinance.

Definition _INTERVAL_MAP : gmap string string :=
  list_to_map [("1m", "1m"); ("5m", "5m"); ("15m", "15m"); ("1h", "1h");
               ("1d", "1d"); ("1w", "1wk")].

(** The [timedelta]s, in seconds. *)
Definition _BAR_DURATION : gmap string Z :=
  list_to_map [("1m", 60); ("5m", 300); ("15m", 900); ("1h", 3600);
               ("1d", 86400); ("1w", 604800)].

Definition _CRYPTO_RE : re.regex :=
  re.compile
    (re.Seq (re.at_least 2 re.upper_letter)
            (re.any_of (map re.word ["USDT"; "USDC"; "BTC"; "ETH"; "BNB"; "BUSD"; "FDUSD"]))).

(** [^[A-Z]{6}$] *)
Definition _FOREX_RE : re.regex := re.compile (re.times 6 re.upper_letter).

(** [^(\^[A-Z]+|[A-Z]{1,5})$] *)
Definition _STOCK_RE : re.regex :=
  re.compile
    (re.Alt (re.Seq (re.Chr "^") (re.at_least 1 re.upper_letter))
            (re.between 1 5 re.upper_letter)).

(** [^[A-Z0-9]{1,7}\.[A-Z]{1,3}$] *)
Definition _INTL_STOCK_RE : re.regex :=
  re.compile
    (re.Seq (re.between 1 7 (re.Alt re.upper_letter re.digit))
            (re.Seq (re.Chr ".") (re.between 1 3 re.upper_letter))).

(** The [for quote in (...)] loop of [_to_yf_symbol]. *)
Fixpoint strip_quote (quotes : list string) (up : string) : option string :=
  match quotes with
  | [] => None
  | quote :: rest =>
      if endswith up quote
      then
        let base := str_take (String.length up - String.length quote) up in
        let yf_quote :=
          if bool_decide (quote ∈ ["USDT"; "USDC"; "BUSD"; "FDUSD"]) then "USD" else quote in
        Some (base +:+ "-" +:+ yf_quote)
      else strip_quote rest up
  end.

Definition _to_yf_symbol (symbol : string) : string :=
  let up := upper symbol in
  match strip_quote ["USDT"; "USDC"; "BUSD"; "FDUSD"; "BNB"; "ETH"; "BTC"] up with
  | Some ticker => ticker
  | None => if re.match_ _FOREX_RE up then up +:+ "=X" else up
  end.

Definition supports (symbol : string) : bool :=
  let up := upper symbol in
  re.match_ _CRYPTO_RE up || re.match_ _FOREX_RE up
  || re.match_ _STOCK_RE up || re.match_ _INTL_STOCK_RE up.

Definition caught (e : exn) : bool :=
  bool_decide (e = ValueError) || bool_decide (e = KeyError).

(** The body of the [try] for one [(ts, row)] of [iterrows()]. *)
Definition candle_of_row (w : World) (r : float * gmap string pyval) : pyres Candle :=
  let '(ts, row) := r in
  t ← int_of_float ts;
  vo ← dict_getitem row "Open"; o ← py_float w vo;
  vh ← dict_getitem row "High"; h ← py_float w vh;
  vl ← dict_getitem row "Low"; l ← py_float w vl;
  vc ← dict_getitem row "Close"; c ← py_float w vc;
  let vol := default (PFloat zero) (row !! "Volume") in
  v ← py_float w (if truthy vol then vol else PFloat zero);
  models.new t o h l c v.

Definition fetch (w : World) (symbol interval : string) (limit : Z)
    : pyres (option (list Candle)) :=
  match _INTERVAL_MAP !! interval with
  | None => Ok None
  | Some yf_interval =>
      let ticker := _to_yf_symbol symbol in
      bar_delta ← dict_getitem _BAR_DURATION interval;
      n ← headroom limit f1_2;
      delta ← timedelta_mul bar_delta n;
      start ← datetime_sub (now w) delta;
      match yfinance_download w ticker yf_interval start with
      | None => Ok None
      | Some [] => Ok None
      | Some df =>
          candles ← collect caught (candle_of_row w) (tail limit df) [];
          Ok (or_none candles)
      end
  end.

Definition YFinanceProvider : base.OHLCVProvider :=
  {| base.name := "yfinance"; base.supports := supports; base.fetch := fetch |}.

End yfinance.

(* ===================================================================== *)
(** ** providers/tiingo.py                                               *)
(* ===================================================================== *)

Module tiingo.

Definition _RESAMPLE : gmap string string :=
  list_to_map [("1d", "daily"); ("1w", "weekly")].

Definition _BAR_DURATION : gmap string Z :=
  list_to_map [("1d", 86400); ("1w", 604800)].

(** [^[A-Z]{1,5}$] *)
Definition _STOCK_RE : re.regex := re.compile (re.between 1 5 re.upper_letter).

Definition _INTL_STOCK_RE : re.regex :=
  re.compile
    (re.Seq (re.between 1 7 (re.Alt re.upper_letter re.digit))
            (re.Seq (re.Chr ".") (re.between 1 3 re.upper_letter))).

Definition supports (symbol : string) : bool :=
  let up := upper symbol in
  re.match_ _STOCK_RE up || re.match_ _INTL_STOCK_RE up.

Definition caught (e : exn) : bool :=
  bool_decide (e = KeyError) || bool_decide (e = ValueError).

(** [datetime.datetime.fromisoformat(v)]: a [TypeError] unless [v] is a string. *)
Definition parse_date (w : World) (v : pyval) : pyres float :=
  match v with
  | PStr s =>
      match fromisoformat w s with
      | Some ts => Ok ts
      | None => Raise ValueError
      end
  | _ => Raise TypeError
  end.

(** [row.get(adj) or row[raw]]: the right operand is only evaluated when
    the left one is false. *)
Definition adj_or (row : gmap string pyval) (adj raw : string) : pyres pyval :=
  let a := dict_get row adj in
  if truthy a then Ok a else dict_getitem row raw.

(** The body of the [try] for one row. *)
Definition candle_of_row (w : World) (row : gmap string pyval) : pyres Candle :=
  d ← dict_getitem row "date";
  ts ← parse_date w d;
  t ← int_of_float ts;
  vo ← adj_or row "adjOpen" "open"; o ← py_float w vo;
  vh ← adj_or row "adjHigh" "high"; h ← py_float w vh;
  vl ← adj_or row "adjLow" "low"; l ← py_float w vl;
  vc ← adj_or row "adjClose" "close"; c ← py_float w vc;
  let vv :=
    let a := dict_get row "adjVolume" in
    if truthy a then a
    else
      let b := dict_get row "volume" in
      if truthy b then b else PFloat zero in
  v ← py_float w vv;
  models.new t o h l c v.

(** [not api_key]: the variable is unset or empty. *)
Definition key_missing (api_key : option string) : bool :=
  match api_key with
  | None => true
  | Some k => String.eqb k ""
  end.

Definition fetch (w : World) (symbol interval : string) (limit : Z)
    : pyres (option (list Candle)) :=
  match _RESAMPLE !! interval with
  | None => Ok None
  | Some resample =>
      let api_key := getenv w "TIINGO_API_KEY" in
      if key_missing api_key then Raise RuntimeError
      else
        bar_delta ← dict_getitem _BAR_DURATION interval;
        n ← headroom limit f1_2;
        delta ← timedelta_mul bar_delta n;
        start ← datetime_sub (now w) delta;
        let ticker := upper symbol in
        match tiingo_download w ticker resample start (default "" api_key) with
        | None => Ok None
        | Some [] => Ok None
        | Some rows =>
            candles ← collect caught (candle_of_row w) (slice_from (- limit) rows) [];
            Ok (or_none candles)
        end
  end.

Definition TiingoProvider : base.OHLCVProvider :=
  {| base.name := "tiingo"; base.supports := supports; base.fetch := fetch |}.

End tiingo.

(* ===================================================================== *)
(** ** providers/finnhub.py                                              *)
(* ===================================================================== *)

Module finnhub.

Definition _RESOLUTION_MAP : gmap string string :=
  list_to_map [("1m", "1"); ("5m", "5"); ("15m", "15"); ("30m", "30");
               ("1h", "60"); ("1d", "D"); ("1w", "W")].

Definition _BAR_SECONDS : gmap string Z :=
  list_to_map [("1m", 60); ("5m", 300); ("15m", 900); ("30m", 1800);
               ("1h", 3600); ("1d", 86400); ("1w", 604800)].

Definition _STOCK_RE : re.regex :=
  re.compile
    (re.Alt (re.Seq (re.Chr "^") (re.at_least 1 re.upper_letter))
            (re.between 1 5 re.upper_letter)).

Definition _INTL_STOCK_RE : re.regex :=
  re.compile
    (re.Seq (re.between 1 7 (re.Alt re.upper_letter re.digit))
            (re.Seq (re.Chr ".") (re.between 1 3 re.upper_letter))).

Definition _FOREX_RE : re.regex := re.compile (re.times 6 re.upper_letter).

Definition _to_forex_symbol (symbol : string) : string :=
  "OANDA:" +:+ str_take 3 symbol +:+ "_" +:+ str_drop 3 symbol.

Definition supports (symbol : string) : bool :=
  let up := upper symbol in
  re.match_ _STOCK_RE up || re.match_ _INTL_STOCK_RE up || re.match_ _FOREX_RE up.

Definition _fetch_stock (w : World) (symbol resolution : string) (from_ts to_ts : Z)
    (api_key : string) : option finnhub_reply :=
  finnhub_stock_candles w symbol resolution from_ts to_ts api_key.

Definition _fetch_forex (w : World) (symbol resolution : string) (from_ts to_ts : Z)
    (api_key : string) : option finnhub_reply :=
  let fx_sym := _to_forex_symbol symbol in
  finnhub_forex_candles w fx_sym resolution from_ts to_ts api_key.

Definition caught (e : exn) : bool :=
  bool_decide (e = IndexError) || bool_decide (e = KeyError) || bool_decide (e = ValueError).

(** The body of the [try] for index [i]. *)
Definition candle_at (w : World) (timestamps opens highs lows closes volumes : list pyval)
    (i : nat) : pyres Candle :=
  ti ← getitem timestamps i; t ← py_int w ti;
  oi ← getitem opens i; o ← py_float w oi;
  hi ← getitem highs i; h ← py_float w hi;
  li ← getitem lows i; l ← py_float w li;
  ci ← getitem closes i; c ← py_float w ci;
  v ← (if (i <? length volumes)%nat
       then vi ← getitem volumes i; py_float w vi
       else Ok zero);
  models.new t o h l c v.

Definition _parse (w : World) (raw : option finnhub_reply) (limit : Z)
    : pyres (option (list Candle)) :=
  match raw with
  | None => Ok None
  | Some raw =>
      let timestamps := default [] (raw !! "t") in
      let opens := default [] (raw !! "o") in
      let highs := default [] (raw !! "h") in
      let lows := default [] (raw !! "l") in
      let closes := default [] (raw !! "c") in
      let volumes := default (replicate (length timestamps) (PFloat zero)) (raw !! "v") in
      candles ← collect caught (candle_at w timestamps opens highs lows closes volumes)
                        (seq 0 (length timestamps)) [];
      Ok (or_none (slice_from (- limit) candles))
  end.

Definition key_missing (api_key : option string) : bool :=
  match api_key with
  | None => true
  | Some k => String.eqb k ""
  end.

Definition fetch (w : World) (symbol interval : string) (limit : Z)
    : pyres (option (list Candle)) :=
  match _RESOLUTION_MAP !! interval with
  | None => Ok None
  | Some resolution =>
      let api_key := getenv w "FINNHUB_API_KEY" in
      if key_missing api_key then Raise RuntimeError
      else
        bar_sec ← dict_getitem _BAR_SECONDS interval;
        let to_ts := now w in
        n ← headroom limit f1_3;
        let from_ts := to_ts - bar_sec * n in
        let up := upper symbol in
        let raw :=
          if re.match_ _FOREX_RE up
          then _fetch_forex w up resolution from_ts to_ts (default "" api_key)
          else _fetch_stock w up resolution from_ts to_ts (default "" api_key) in
        _parse w raw limit
  end.

Definition FinnhubProvider : base.OHLCVProvider :=
  {| base.name := "finnhub"; base.supports := supports; base.fetch := fetch |}.

End finnhub.

(* ===================================================================== *)
(** ** registry.py                                                       *)
(* ===================================================================== *)

Module registry.

Definition _CRYPTO_RE : re.regex :=
  re.compile
    (re.Seq (re.at_least 2 re.upper_letter)
            (re.any_of (map re.word ["USDT"; "USDC"; "BTC"; "ETH"; "BNB"; "BUSD"; "FDUSD"]))).

Definition _STOCK_RE : re.regex :=
  re.compile
    (re.Alt (re.Seq (re.Chr "^") (re.at_least 1 re.upper_letter))
            (re.between 1 5 re.upper_letter)).

Definition _INTL_STOCK_RE : re.regex :=
  re.compile
    (re.Seq (re.between 1 7 (re.Alt re.upper_letter re.digit))
            (re.Seq (re.Chr ".") (re.between 1 3 re.upper_letter))).

Definition _FOREX_RE : re.regex := re.compile (re.times 6 re.upper_letter).

(** The four lazily created singletons.  The constructors take no
    argument and the providers hold no state, so each getter is the
    provider itself. *)
Definition _get_binance : base.OHLCVProvider := binance.BinanceProvider.
Definition _get_yfinance : base.OHLCVProvider := yfinance.YFinanceProvider.
Definition _get_tiingo : base.OHLCVProvider := tiingo.TiingoProvider.
Definition _get_finnhub : base.OHLCVProvider := finnhub.FinnhubProvider.

Definition pick (symbol : string) : list base.OHLCVProvider :=
  let up := upper symbol in
  if re.match_ _CRYPTO_RE up then [_get_binance; _get_yfinance]
  else if re.match_ _STOCK_RE up then [_get_yfinance; _get_tiingo; _get_finnhub]
  else if re.match_ _INTL_STOCK_RE up then [_get_yfinance; _get_finnhub]
  else if re.match_ _FOREX_RE up then [_get_yfinance; _get_finnhub]
  else [_get_binance; _get_yfinance; _get_tiingo; _get_finnhub].

(** The method calls that [fetch] makes on the providers of the chain,
    in the order in which it makes them. *)
Inductive call : Type :=
  | CallSupports (provider symbol : string)
  | CallFetch (provider symbol interval : string) (limit : Z).

(** A computation that records its calls and may raise. *)
Definition M (A : Type) : Type := list call -> pyres A * list call.

#[global] Instance M_ret : MRet M := fun A a log => (Ok a, log).

#[global] Instance M_bind : MBind M := fun A B k m log =>
  match m log with
  | (Ok a, log') => k a log'
  | (Raise e, log') => (Raise e, log')
  end.

Definition call_supports (provider : base.OHLCVProvider) (symbol : string) : M bool :=
  fun log : list call => (Ok (base.supports provider symbol),
              log ++ [CallSupports (base.name provider) symbol]).

Definition call_fetch (w : World) (provider : base.OHLCVProvider)
    (symbol interval : string) (limit : Z) : M (option (list Candle)) :=
  fun log : list call => (base.fetch provider w symbol interval limit,
              log ++ [CallFetch (base.name provider) symbol interval limit]).

(** [if result:] on a value that is [None] or a list. *)
Definition usable (result : option (list Candle)) : bool :=
  match result with
  | Some (_ :: _) => true
  | _ => false
  end.

(** The [for provider in ...] loop of [fetch]. *)
Fixpoint walk (w : World) (chain : list base.OHLCVProvider)
    (symbol interval : string) (limit : Z) : M (option (list Candle)) :=
  match chain with
  | [] => mret None
  | provider :: rest =>
      ok ← call_supports provider symbol;
      if negb ok then walk w rest symbol interval limit
      else
        result ← call_fetch w provider symbol interval limit;
        if usable result then mret result
        else walk w rest symbol interval limit
  end.

Definition fetch (w : World) (symbol interval : string) (limit : Z)
    : M (option (list Candle)) :=
  walk w (pick symbol) symbol interval limit.

(** Running a computation from an empty record of calls. *)
Definition run {A : Type} (m : M A) : pyres A * list call := m [].

End registry.

(* ===================================================================== *)
(** ** Vocabulary of the statements                                      *)
(* ===================================================================== *)

(** The four concrete providers, with what each module declares: its
    instance, the intervals its [fetch] honours, and the environment
    variable its [fetch] requires. *)
Inductive provider_id : Type := Binance | YFinance | Tiingo | Finnhub.

Definition instance (id : provider_id) : base.OHLCVProvider :=
  match id with
  | Binance => binance.BinanceProvider
  | YFinance => yfinance.YFinanceProvider
  | Tiingo => tiingo.TiingoProvider
  | Finnhub => finnhub.FinnhubProvider
  end.

Definition declared_intervals (id : provider_id) : gset string :=
  match id with
  | Binance => binance._VALID_INTERVALS
  | YFinance => dom yfinance._INTERVAL_MAP
  | Tiingo => dom tiingo._RESAMPLE
  | Finnhub => dom finnhub._RESOLUTION_MAP
  end.

Definition credential (id : provider_id) : option string :=
  match id with
  | Tiingo => Some "TIINGO_API_KEY"
  | Finnhub => Some "FINNHUB_API_KEY"
  | _ => None
  end.

(** [not os.getenv(var)]: the variable is unset or empty. *)
Definition absent_in (w : World) (var : string) : Prop :=
  getenv w var = None \/ getenv w var = Some "".

(** The asset classes of the specification and its routing table. *)
Inductive AssetClass : Type := Crypto | Stock | InternationalStock | Forex | Unknown.

(** The ordered pattern tests: the first pattern that matches the
    upper-cased symbol decides. *)
Definition patterns : list (re.regex * AssetClass) :=
  [(registry._CRYPTO_RE, Crypto); (registry._STOCK_RE, Stock);
   (registry._INTL_STOCK_RE, InternationalStock); (registry._FOREX_RE, Forex)].

Fixpoint first_match (tests : list (re.regex * AssetClass)) (up : string) : AssetClass :=
  match tests with
  | [] => Unknown
  | (pattern, class) :: rest =>
      if re.match_ pattern up then class else first_match rest up
  end.

Definition classify (symbol : string) : AssetClass := first_match patterns (upper symbol).

Definition chain (class : AssetClass) : list base.OHLCVProvider :=
  match class with
  | Crypto => [binance.BinanceProvider; yfinance.YFinanceProvider]
  | Stock => [yfinance.YFinanceProvider; tiingo.TiingoProvider; finnhub.FinnhubProvider]
  | InternationalStock => [yfinance.YFinanceProvider; finnhub.FinnhubProvider]
  | Forex => [yfinance.YFinanceProvider; finnhub.FinnhubProvider]
  | Unknown => [binance.BinanceProvider; yfinance.YFinanceProvider;
                tiingo.TiingoProvider; finnhub.FinnhubProvider]
  end.

(** A provider that the walk passes over: [supports] says no, or [fetch]
    returns [None] or an empty list. *)
Definition yields_nothing (w : World) (symbol interval : string) (limit : Z)
    (p : base.OHLCVProvider) : Prop :=
  base.supports p symbol = false
  \/ base.fetch p w symbol interval limit = Ok None
  \/ base.fetch p w symbol interval limit = Ok (Some []).

(** The calls that the walk makes on one provider that it reaches:
    [supports] always, [fetch] only when [supports] says yes. *)
Definition calls_on (symbol interval : string) (limit : Z) (p : base.OHLCVProvider)
    : list registry.call :=
  registry.CallSupports (base.name p) symbol
  :: (if base.supports p symbol
      then [registry.CallFetch (base.name p) symbol interval limit]
      else []).


(** A provider at which the walk stops with [res]: it supports the
    symbol, and its [fetch] returned the non-empty list, or raised the
    exception, that [res] carries. *)
Definition stops_at (w : World) (symbol interval : string) (limit : Z)
    (p : base.OHLCVProvider) (res : pyres (option (list Candle))) : Prop :=
  base.supports p symbol = true
  /\ base.fetch p w symbol interval limit = res
  /\ ((exists cs, res = Ok (Some cs) /\ cs <> []) \/ (exists e, res = Raise e)).

(** Strings made of characters that satisfy [P], and patterns that can
    only consume such characters. *)
Fixpoint all_chars (P : ascii -> bool) (s : string) : bool :=
  match s with
  | EmptyString => true
  | String c s' => P c && all_chars P s'
  end.

Fixpoint within (P : ascii -> bool) (r : re.regex) : bool :=
  match r with
  | re.Void => true
  | re.Eps => true
  | re.Chr c => P c
  | re.Rng lo hi =>
      forallb (fun n => implb (re.in_range lo hi (ascii_of_nat n)) (P (ascii_of_nat n)))
              (seq 0 256)
  | re.Seq r1 r2 => within P r1 && within P r2
  | re.Alt r1 r2 => within P r1 && within P r2
  | re.Star r1 => within P r1
  end.

(** The characters of the stock, international, forex and crypto
    patterns: capitals, digits, the dot and the caret. *)
Definition symbol_char (c : ascii) : bool :=
  re.in_range "A" "Z" c || re.in_range "0" "9" c || Ascii.eqb c "." || Ascii.eqb c "^".

(** What [_normalise] leaves of a character: not a slash, not a hyphen,
    not white space. *)
Definition kept_char (c : ascii) : bool :=
  negb (Ascii.eqb c "/") && negb (Ascii.eqb c "-") && negb (is_space c).

(** The one-character string of a line feed. *)
Definition nl : string := String re.newline EmptyString.

(** A string that does not start with white space: what [lstrip]
    returns, and what [rstrip] keeps. *)
Definition starts_clean (s : string) : bool :=
  match s with
  | EmptyString => true
  | String a _ => negb (is_space a)
  end.

(** What [__post_init__] has checked of a candle that exists. *)
Definition well_formed (k : Candle) : Prop :=
  0 < time k
  /\ SFltb (high k) (low k) = false
  /\ (is_nan (high k) = false -> is_nan (low k) = false ->
      SFleb (low k) (high k) = true).

(** The quote currencies that [_to_yf_symbol] looks for, in the order in
    which it tries them, and the quote that it writes for each. *)
Definition quotes : list string := ["USDT"; "USDC"; "BUSD"; "FDUSD"; "BNB"; "ETH"; "BTC"].

Definition yf_quote (quote : string) : string :=
  if bool_decide (quote ∈ ["USDT"; "USDC"; "BUSD"; "FDUSD"]) then "USD" else quote.


(** For a hypothesis [H] that lists what an exception can be, and a goal
    that is a list of the same kind: each case of [H] is in the goal. *)
Ltac one_of H :=
  decompose [or and] H; subst;
  solve [repeat first [reflexivity | left; reflexivity | right]].

(** The time that each provider reads off an upstream row, when it can. *)
Definition ok_value {A : Type} (r : pyres A) : option A :=
  match r with
  | Ok a => Some a
  | Raise _ => None
  end.

Definition kline_time (w : World) (row : kline) : option Z :=
  ok_value (r0 ← subscript row 0; t ← py_int w r0; Ok (t / 1000)).

Definition frame_time (r : float * gmap string pyval) : option Z :=
  ok_value (int_of_float r.1).

Definition tiingo_time (w : World) (row : gmap string pyval) : option Z :=
  ok_value (d ← dict_getitem row "date"; ts ← tiingo.parse_date w d; int_of_float ts).

Definition finnhub_times (w : World) (raw : finnhub_reply) : list Z :=
  omap (fun ti => ok_value (py_int w ti)) (default [] (raw !! "t")).

Definition oldest_first (times : list Z) : Prop := StronglySorted Z.lt times.

(** The contract of the upstream services on which the order of the
    result rests: every reply lists its bars oldest first. *)
Record upstreams_oldest_first (w : World) : Prop := {
  binance_oldest_first : forall ticker interval limit resp,
    binance_klines w ticker interval limit = Ok resp ->
    oldest_first (omap (kline_time w) (json resp));
  yfinance_oldest_first : forall ticker interval start df,
    yfinance_download w ticker interval start = Some df ->
    oldest_first (omap frame_time df);
  tiingo_oldest_first : forall ticker resample start key rows,
    tiingo_download w ticker resample start key = Some rows ->
    oldest_first (omap (tiingo_time w) rows);
  finnhub_stock_oldest_first : forall symbol resolution from_ts to_ts key raw,
    finnhub_stock_candles w symbol resolution from_ts to_ts key = Some raw ->
    oldest_first (finnhub_times w raw);
  finnhub_forex_oldest_first : forall symbol resolution from_ts to_ts key raw,
    finnhub_forex_candles w symbol resolution from_ts to_ts key = Some raw ->
    oldest_first (finnhub_times w raw)
}.

(** The contract of Binance on which the length of its result rests:
    a reply holds no more klines than the [limit] parameter sent (and
    none when that parameter is not positive). *)
Definition binance_honours_limit (w : World) : Prop :=
  forall ticker interval limit resp,
    binance_klines w ticker interval limit = Ok resp ->
    Z.of_nat (length (json resp)) <= Z.max 0 limit.

(** The most recent [limit] bars of a reply that lists its bars oldest
    first: its last [limit] entries, and the whole of it when it holds
    no more than [limit]. *)
Definition most_recent {A : Type} (limit : Z) (l : list A) : list A :=
  drop (length l - Z.to_nat limit) l.

(** The candles that Finnhub can build from a reply, in the order of
    its arrays. *)
Definition finnhub_candles (w : World) (reply : finnhub_reply) : list Candle :=
  let timestamps := default [] (reply !! "t") in
  omap (fun i => ok_value
          (finnhub.candle_at w timestamps (default [] (reply !! "o"))
             (default [] (reply !! "h")) (default [] (reply !! "l"))
             (default [] (reply !! "c"))
             (default (replicate (length timestamps) (PFloat zero)) (reply !! "v")) i))
       (seq 0 (length timestamps)).

(** Which bars of its upstream reply the list [cs] of a provider holds.
    Binance: one candle for each row of the reply to a request for
    [min(limit, 1000)] klines, none left out.  yfinance and Tiingo: the
    candles that can be built from the most recent [limit] rows of the
    reply.  Finnhub: the most recent [limit] of the candles that can be
    built from the reply. *)
Definition made_of_most_recent (w : World) (symbol interval : string) (limit : Z)
    (id : provider_id) (cs : list Candle) : Prop :=
  match id with
  | Binance =>
      exists resp,
        binance_klines w (binance._normalise symbol) interval (Z.min limit 1000) = Ok resp
        /\ Forall2 (fun row c => binance.candle_of_row w row = Ok c) (json resp) cs
  | YFinance =>
      exists yf_interval start df,
        yfinance._INTERVAL_MAP !! interval = Some yf_interval
        /\ yfinance_download w (yfinance._to_yf_symbol symbol) yf_interval start = Some df
        /\ cs = omap (fun r => ok_value (yfinance.candle_of_row w r)) (most_recent limit df)
  | Tiingo =>
      exists resample start key rows,
        tiingo._RESAMPLE !! interval = Some resample
        /\ getenv w "TIINGO_API_KEY" = Some key
        /\ tiingo_download w (upper symbol) resample start key = Some rows
        /\ cs = omap (fun row => ok_value (tiingo.candle_of_row w row))
                     (most_recent limit rows)
  | Finnhub =>
      exists resolution from_ts key reply,
        finnhub._RESOLUTION_MAP !! interval = Some resolution
        /\ getenv w "FINNHUB_API_KEY" = Some key
        /\ (finnhub_stock_candles w (upper symbol) resolution from_ts (now w) key
            = Some reply
            \/ finnhub_forex_candles w (finnhub._to_forex_symbol (upper symbol))
                 resolution from_ts (now w) key = Some reply)
        /\ cs = most_recent limit (finnhub_candles w reply)
  end.

(* ===================================================================== *)
(** ** Worlds for the worked examples                                    *)
(* ===================================================================== *)

Module examples.

(** A runtime that reads plain decimal digit strings and three ISO
    dates (taken at midnight UTC); the examples use no other text.
    The clock of the examples stands at 2024-01-05 00:00:00 UTC. *)
Fixpoint digits_value (s : string) (acc : Z) : option Z :=
  match s with
  | EmptyString => Some acc
  | String c s' =>
      let n := nat_of_ascii c in
      if ((48 <=? n) && (n <=? 57))%nat
      then digits_value s' (10 * acc + Z.of_nat (n - 48))
      else None
  end.

Definition read_int (s : string) : option Z :=
  match s with
  | EmptyString => None
  | _ => digits_value s 0
  end.

Definition flt (z : Z) : float := binary_normalize prec emax z 0 false.

Definition read_float (s : string) : option float := flt <$> read_int s.

Definition read_date (s : string) : option float :=
  if String.eqb s "2024-01-02" then Some (flt 1704153600)
  else if String.eqb s "2024-01-03" then Some (flt 1704240000)
  else if String.eqb s "2024-01-04" then Some (flt 1704326400)
  else None.

Definition make_world (env : string -> option string)
    (klines : Z -> pyres http_response)
    (frame : option DataFrame)
    (rows : option (list (gmap string pyval)))
    (stock forex : option finnhub_reply) : World :=
  {| float_of_str := read_float;
     int_of_str := read_int;
     fromisoformat := read_date;
     getenv := env;
     now := 1704412800;
     binance_klines := fun _ _ limit => klines limit;
     yfinance_download := fun _ _ _ => frame;
     tiingo_download := fun _ _ _ _ => rows;
     finnhub_stock_candles := fun _ _ _ _ _ => stock;
     finnhub_forex_candles := fun _ _ _ _ _ => forex |}.

Definition keys_set (var : string) : option string := Some "secret".
Definition keys_unset (var : string) : option string := None.

(** Binance refusing the request: HTTP 400 and no kline. *)
Definition refused (limit : Z) : pyres http_response :=
  Ok {| status := 400; json := [] |}.

(** Binance answering with the given klines, whatever the limit. *)
Definition answering (rows : list kline) (limit : Z) : pyres http_response :=
  Ok {| status := 200; json := rows |}.

Definition candle (t o h l c v : Z) : Candle :=
  {| time := t; open := flt o; high := flt h; low := flt l; close := flt c;
     volume := flt v |}.

(** Three daily bars as Tiingo sends them; the second has its high
    below its low. *)
Definition bar (date : string) (o h l c v : Z) : gmap string pyval :=
  list_to_map [("date", PStr date); ("open", PInt o); ("high", PInt h);
               ("low", PInt l); ("close", PInt c); ("volume", PInt v)].

Definition day2 : gmap string pyval := bar "2024-01-02" 10 12 9 11 100.
Definition day3_bad : gmap string pyval := bar "2024-01-03" 11 8 9 10 120.
Definition day4 : gmap string pyval := bar "2024-01-04" 10 13 10 12 90.

Definition candle2 : Candle := candle 1704153600 10 12 9 11 100.
Definition candle3_bad : Candle := candle 1704240000 11 8 9 10 120.
Definition candle4 : Candle := candle 1704326400 10 13 10 12 90.

(** The same bars as Binance klines: open time in milliseconds, prices
    and volume as decimal strings. *)
Definition kline2 : kline :=
  KArray [PInt 1704153600000; PStr "10"; PStr "12"; PStr "9"; PStr "11"; PStr "100"].
Definition kline3_bad : kline :=
  KArray [PInt 1704240000000; PStr "11"; PStr "8"; PStr "9"; PStr "10"; PStr "120"].
Definition kline4 : kline :=
  KArray [PInt 1704326400000; PStr "10"; PStr "13"; PStr "10"; PStr "12"; PStr "90"].

(** yfinance finds nothing, Tiingo answers with the three bars. *)
Definition tiingo_answers : World :=
  make_world keys_set refused None (Some [day2; day3_bad; day4]) None None.

(** The same upstreams, with no API key in the environment. *)
Definition no_keys : World :=
  make_world keys_unset refused None (Some [day2; day3_bad; day4]) None None.

(** Binance answering with the three klines, the bad one included. *)
Definition binance_bad_row : World :=
  make_world keys_set (answering [kline2; kline3_bad; kline4]) None None None None.

(** Binance answering with two klines, newest first. *)
Definition binance_newest_first : World :=
  make_world keys_set (answering [kline4; kline2]) None None None None.

(** Binance answering with the most recent klines, as many as it is
    asked for. *)
Definition binance_most_recent : World :=
  make_world keys_set
    (fun limit => Ok {| status := 200; json := most_recent limit [kline2; kline4] |})
    None None None None.

(** Nothing answers. *)
Definition silent : World :=
  make_world keys_set refused None None None None.

(** yfinance answering with one row whose cells are all NaN, as pandas
    fills a day without data. *)
Definition nan_frame : DataFrame :=
  [(flt 1704153600,
    list_to_map [("Open", PFloat S754_nan); ("High", PFloat S754_nan);
                 ("Low", PFloat S754_nan); ("Close", PFloat S754_nan);
                 ("Volume", PFloat S754_nan)])].

Definition nan_candle : Candle :=
  {| time := 1704153600; open := S754_nan; high := S754_nan; low := S754_nan;
     close := S754_nan; volume := S754_nan |}.

Definition yfinance_nan_row : World :=
  make_world keys_set refused (Some nan_frame) None None None.

(** Tiingo answering with three bars, the second with a null open. *)
Definition day3_null : gmap string pyval :=
  list_to_map [("date", PStr "2024-01-03"); ("open", PNone); ("high", PInt 12);
               ("low", PInt 9); ("close", PInt 10); ("volume", PInt 120)].

Definition tiingo_null_field : World :=
  make_world keys_set refused None (Some [day2; day3_null; day4]) None None.

End examples.

(* ===================================================================== *)
(** ** Replies of other shapes                                           *)
(* ===================================================================== *)

Module replies.

(** Binance answering with a row that is a JSON object. *)
Definition object_row : World :=
  examples.make_world examples.keys_set
    (examples.answering [KObject (list_to_map [("openTime", PInt 1704153600000)])])
    None None None None.

(** Two bars without the ["v"] array, the ["o"] array one short. *)
Definition short_opens : finnhub_reply :=
  list_to_map [("t", [PInt 1704153600; PInt 1704326400]); ("o", [PInt 10]);
               ("h", [PInt 12; PInt 13]); ("l", [PInt 9; PInt 10]);
               ("c", [PInt 11; PInt 12])].

Definition candle2_no_volume : Candle := examples.candle 1704153600 10 12 9 11 0.

End replies.

(* ===================================================================== *)
(** ** The matcher decides the language of a pattern                     *)
(* ===================================================================== *)

Section Matcher.

Import re.

Lemma append_empty_inv (s1 s2 : string) :
  s1 +:+ s2 = EmptyString -> s1 = EmptyString /\ s2 = EmptyString.
Proof.
  destruct s1 as [| a s1].
  - change (EmptyString +:+ s2) with s2. tauto.
  - change (String a s1 +:+ s2) with (String a (s1 +:+ s2)). discriminate.
Qed.

Lemma lang_eps_inv (s : string) : lang Eps s -> s = EmptyString.
Proof. inversion 1; reflexivity. Qed.

Lemma nullable_lang (r : regex) : nullable r = true <-> lang r EmptyString.
Proof.
  split.
  - induction r; simpl; intros H; try discriminate.
    + constructor.
    + apply andb_true_iff in H as [H1 H2].
      change EmptyString with (EmptyString +:+ EmptyString).
      constructor; auto.
    + apply orb_true_iff in H as [H | H]; [apply lang_alt_l | apply lang_alt_r]; auto.
    + constructor.
  - intros H. remember EmptyString as s eqn:Hs.
    induction H; simpl; try discriminate; try reflexivity.
    + apply append_empty_inv in Hs as [-> ->].
      rewrite IHlang1, IHlang2; reflexivity.
    + rewrite IHlang; auto.
    + rewrite IHlang; auto using orb_true_r.
Qed.

Lemma deriv_sound (a : ascii) (r : regex) :
  forall s, lang (deriv a r) s -> lang r (String a s).
Proof.
  induction r; simpl; intros s H.
  - inversion H.
  - inversion H.
  - destruct (Ascii.eqb_spec a c) as [-> | _]; [| inversion H].
    apply lang_eps_inv in H as ->. constructor.
  - destruct (in_range lo hi a) eqn:Hr; [| inversion H].
    apply lang_eps_inv in H as ->. constructor; assumption.
  - assert (Hseq : forall t, lang (Seq (deriv a r1) r2) t -> lang (Seq r1 r2) (String a t)).
    { intros t Ht. inversion Ht; subst.
      change (String a (s1 +:+ s2)) with (String a s1 +:+ s2).
      constructor; auto. }
    destruct (nullable r1) eqn:Hn; [| auto].
    inversion H; subst; [auto |].
    change (String a s) with (EmptyString +:+ String a s).
    constructor; [apply nullable_lang; assumption | auto].
  - inversion H; subst; [apply lang_alt_l | apply lang_alt_r]; auto.
  - inversion H; subst.
    change (String a (s1 +:+ s2)) with (String a s1 +:+ s2).
    constructor; auto.
Qed.

Lemma deriv_complete (a : ascii) (r : regex) (t : string) :
  lang r t -> forall u, t = String a u -> lang (deriv a r) u.
Proof.
  intros H. induction H; intros u Hu; simpl.
  - discriminate.
  - injection Hu as -> <-. rewrite Ascii.eqb_refl. constructor.
  - injection Hu as -> <-. rewrite H. constructor.
  - destruct s1 as [| b s1'].
    + change (s2 = String a u) in Hu. subst s2.
      assert (Hn : nullable r1 = true) by (apply nullable_lang; assumption).
      rewrite Hn. apply lang_alt_r. auto.
    + change (String b (s1' +:+ s2) = String a u) in Hu.
      injection Hu as -> <-.
      assert (Hd : lang (Seq (deriv a r1) r2) (s1' +:+ s2)) by (constructor; auto).
      destruct (nullable r1); [apply lang_alt_l |]; assumption.
  - apply lang_alt_l; auto.
  - apply lang_alt_r; auto.
  - discriminate.
  - destruct s1 as [| b s1'].
    + apply (IHlang2 u Hu).
    + change (String b (s1' +:+ s2) = String a u) in Hu.
      injection Hu as -> <-. constructor; auto.
Qed.

(** [accepts] is exactly membership in the language of the pattern. *)
Lemma accepts_lang (s : string) : forall r, accepts r s = true <-> lang r s.
Proof.
  induction s as [| a s IH]; intros r; simpl.
  - apply nullable_lang.
  - rewrite IH. split.
    + apply deriv_sound.
    + intros H. eapply deriv_complete; eauto.
Qed.

End Matcher.

(* ===================================================================== *)
(** ** Candles                                                           *)
(* ===================================================================== *)

Section Candles.

Lemma SFcompare_antisym (x y : float) :
  SFcompare y x = CompOpp <$> SFcompare x y.
Proof.
  destruct x as [sx | sx | | sx mx ex], y as [sy | sy | | sy my ey];
    simpl; try reflexivity;
    try (destruct sx; reflexivity); try (destruct sy; reflexivity);
    try (destruct sx, sy; reflexivity).
  destruct sx, sy; try reflexivity; simpl; f_equal;
    rewrite (Z.compare_antisym ex ey);
    destruct (ex ?= ey); simpl; try reflexivity;
    rewrite (Pos.compare_cont_antisym mx my Eq); reflexivity.
Qed.

Lemma SFcompare_None (x y : float) :
  SFcompare x y = None -> is_nan x = true \/ is_nan y = true.
Proof. destruct x, y; simpl; try discriminate; auto. Qed.

(** Away from NaN the two comparisons are complementary. *)
Lemma SFltb_false_SFleb (x y : float) :
  is_nan x = false -> is_nan y = false -> SFltb x y = false -> SFleb y x = true.
Proof.
  unfold SFltb, SFleb. rewrite (SFcompare_antisym x y). intros Hx Hy.
  destruct (SFcompare x y) as [[] |] eqn:Hc; simpl; try congruence.
  apply SFcompare_None in Hc as [Hc | Hc]; congruence.
Qed.

Lemma SFltb_nan_l (y : float) : SFltb S754_nan y = false.
Proof. reflexivity. Qed.

Lemma SFleb_nan_r (y : float) : SFleb y S754_nan = false.
Proof. destruct y; reflexivity. Qed.

(** [Candle(...)] succeeds exactly when neither test of [__post_init__]
    fires, and then holds the six values as given. *)
Lemma new_Ok_iff (t : Z) (o h l c v : float) (self : Candle) :
  models.new t o h l c v = Ok self <->
  SFltb h l = false /\ 0 < t /\
  self = {| time := t; open := o; high := h; low := l; close := c; volume := v |}.
Proof.
  unfold models.new, models.__post_init__; simpl.
  destruct (SFltb h l); simpl.
  - split; [discriminate | intros [? _]; discriminate].
  - destruct (Z.leb_spec t 0); simpl.
    + split; [discriminate | intros (_ & ? & _); lia].
    + split; [intros [= <-]; auto | intros (_ & _ & ->); reflexivity].
Qed.

Lemma new_Raise_iff (t : Z) (o h l c v : float) (e : exn) :
  models.new t o h l c v = Raise e <-> e = ValueError /\ (SFltb h l = true \/ t <= 0).
Proof.
  unfold models.new, models.__post_init__; simpl.
  destruct (SFltb h l); simpl.
  - split; [intros [= <-]; auto | intros [-> _]; reflexivity].
  - destruct (Z.leb_spec t 0); simpl.
    + split; [intros [= <-]; auto | intros [-> _]; reflexivity].
    + split; [discriminate | intros [_ [? | ?]]; [discriminate | lia]].
Qed.

Lemma new_time (t : Z) (o h l c v : float) (self : Candle) :
  models.new t o h l c v = Ok self -> time self = t.
Proof. intros H. apply new_Ok_iff in H as (_ & _ & ->). reflexivity. Qed.

(** What [__post_init__] does guarantee: a positive time, a high that is
    not below the low, and a high at or above the low once neither is
    a NaN. *)
Lemma new_invariant (t : Z) (o h l c v : float) (self : Candle) :
  models.new t o h l c v = Ok self ->
  0 < time self /\ SFltb (high self) (low self) = false /\
  (is_nan (high self) = false -> is_nan (low self) = false ->
   SFleb (low self) (high self) = true).
Proof.
  intros H. apply new_Ok_iff in H as (Hlt & Ht & ->). simpl.
  split; [assumption |]. split; [assumption |].
  intros Hh Hl. apply SFltb_false_SFleb; assumption.
Qed.

(** A frozen dataclass refuses every assignment and deletion: with a
    [FrozenInstanceError] for a field, and with an exception for every
    name. *)
Lemma candle_is_frozen (self : Candle) (name : string) (value : pyval) :
  (name ∈ models.field_names ->
   models.__setattr__ self name value = Raise FrozenInstanceError
   /\ models.__delattr__ self name = Raise FrozenInstanceError)
  /\ (exists e, models.__setattr__ self name value = Raise e)
  /\ (exists e, models.__delattr__ self name = Raise e).
Proof.
  unfold models.__setattr__, models.__delattr__.
  destruct (bool_decide_reflect (name ∈ models.field_names)) as [Hin | Hout].
  - split; [intros _; split; reflexivity |]. split; eexists; reflexivity.
  - split; [intros Hin; contradiction |]. split; eexists; reflexivity.
Qed.

End Candles.

(* ===================================================================== *)
(** ** The fallback walk                                                 *)
(* ===================================================================== *)

Section Walk.

Variable w : World.
Variables symbol interval : string.
Variable limit : Z.

#[local] Abbreviation walk chain := (registry.walk w chain symbol interval limit).
#[local] Abbreviation passed_over := (yields_nothing w symbol interval limit).
#[local] Abbreviation calls := (calls_on symbol interval limit).

(** One turn of the loop. *)
Lemma walk_cons (p : base.OHLCVProvider) (rest : list base.OHLCVProvider)
    (log : list registry.call) :
  walk (p :: rest) log =
  if base.supports p symbol
  then
    match base.fetch p w symbol interval limit with
    | Ok result =>
        if registry.usable result
        then (Ok result, log ++ calls p)
        else walk rest (log ++ calls p)
    | Raise e => (Raise e, log ++ calls p)
    end
  else walk rest (log ++ calls p).
Proof.
  unfold calls_on. simpl.
  unfold mbind, registry.M_bind, registry.call_supports, registry.call_fetch.
  destruct (base.supports p symbol); simpl.
  - rewrite <- app_assoc; simpl.
    destruct (base.fetch p w symbol interval limit) as [result | e]; [| reflexivity].
    destruct (registry.usable result); reflexivity.
  - reflexivity.
Qed.

(** Providers that yield nothing are passed over, each leaving its calls
    in the record. *)
Lemma walk_passes_over (pre rest : list base.OHLCVProvider) :
  Forall passed_over pre ->
  forall log, walk (pre ++ rest) log = walk rest (log ++ flat_map calls pre).
Proof.
  induction 1 as [| p pre Hp _ IH]; intros log.
  - simpl. rewrite app_nil_r. reflexivity.
  - rewrite <- app_comm_cons, walk_cons.
    change (flat_map calls (p :: pre)) with (calls p ++ flat_map calls pre).
    rewrite app_assoc.
    destruct Hp as [Hs | [Hf | Hf]].
    + rewrite Hs. apply IH.
    + rewrite Hf. destruct (base.supports p symbol); apply IH.
    + rewrite Hf. destruct (base.supports p symbol); apply IH.
Qed.

Lemma walk_nil (log : list registry.call) : walk [] log = (Ok None, log).
Proof. reflexivity. Qed.

(** The first provider with a usable answer ends the walk. *)
Lemma walk_wins (p : base.OHLCVProvider) (post : list base.OHLCVProvider)
    (cs : list Candle) (log : list registry.call) :
  base.supports p symbol = true ->
  base.fetch p w symbol interval limit = Ok (Some cs) ->
  cs <> [] ->
  walk (p :: post) log = (Ok (Some cs), log ++ calls p).
Proof.
  intros Hs Hf Hne. rewrite walk_cons, Hs, Hf.
  destruct cs; [congruence | reflexivity].
Qed.

(** An exception raised by a provider ends the walk as well. *)
Lemma walk_raises (p : base.OHLCVProvider) (post : list base.OHLCVProvider)
    (e : exn) (log : list registry.call) :
  base.supports p symbol = true ->
  base.fetch p w symbol interval limit = Raise e ->
  walk (p :: post) log = (Raise e, log ++ calls p).
Proof. intros Hs Hf. rewrite walk_cons, Hs, Hf. reflexivity. Qed.

(** Whatever the walk returns was returned as such, and non-empty, by a
    provider of the chain that supports the symbol. *)
Lemma walk_result_from_chain (chain : list base.OHLCVProvider) :
  forall log cs log',
    walk chain log = (Ok (Some cs), log') ->
    cs <> [] /\
    exists p, p ∈ chain /\ base.supports p symbol = true
              /\ base.fetch p w symbol interval limit = Ok (Some cs).
Proof.
  induction chain as [| p chain IH]; intros log cs log' H.
  - discriminate.
  - rewrite walk_cons in H.
    assert (Hrest : forall l, walk chain l = (Ok (Some cs), log') ->
              cs <> [] /\ exists q, q ∈ p :: chain /\ base.supports q symbol = true
                /\ base.fetch q w symbol interval limit = Ok (Some cs)).
    { intros l Hl. destruct (IH _ _ _ Hl) as (Hne & q & Hq & Hrest).
      split; [assumption |]. exists q. split; [right; assumption | assumption]. }
    destruct (base.supports p symbol) eqn:Hs; [| eauto].
    destruct (base.fetch p w symbol interval limit) as [result | e] eqn:Hf;
      [| discriminate].
    destruct (registry.usable result) eqn:Hu; [| eauto].
    injection H as -> _.
    destruct cs; [discriminate |].
    split; [discriminate |].
    exists p. split; [left | auto].
Qed.

End Walk.

(* ===================================================================== *)
(** ** Patterns and routing                                              *)
(* ===================================================================== *)

Section Patterns.

Import re.

Lemma lang_word (s : string) : lang (word s) s.
Proof.
  induction s as [| c s IH]; simpl.
  - constructor.
  - change (String c s) with (String c EmptyString +:+ s).
    constructor; [constructor | assumption].
Qed.

Lemma lang_upper_letter (c : ascii) :
  in_range "A" "Z" c = true -> lang upper_letter (String c EmptyString).
Proof. intros H. constructor. assumption. Qed.

Lemma lang_any_of (rs : list regex) (r : regex) (s : string) :
  r ∈ rs -> lang r s -> lang (any_of rs) s.
Proof.
  intros Hin Hs. induction rs as [| r' rs IH].
  - inversion Hin.
  - apply elem_of_cons in Hin as [-> | Hin].
    + destruct rs; [assumption | apply lang_alt_l; assumption].
    + destruct rs as [| r'' rs]; [inversion Hin |].
      apply lang_alt_r. apply IH. assumption.
Qed.

Lemma upper_ascii_capital (c : ascii) :
  in_range "A" "Z" c = true -> upper_ascii c = c.
Proof.
  unfold in_range, upper_ascii. intros H.
  apply andb_true_iff in H as [_ H]. apply Nat.leb_le in H.
  change (nat_of_ascii "Z") with 90%nat in H.
  destruct (Nat.leb_spec 97 (nat_of_ascii c)); simpl; [lia | reflexivity].
Qed.

(** Three capital letters followed by [BTC] read both as a crypto pair
    and as a forex pair. *)
Lemma three_capitals_BTC (a b c : ascii) :
  in_range "A" "Z" a = true -> in_range "A" "Z" b = true -> in_range "A" "Z" c = true ->
  let s := String a (String b (String c "BTC")) in
  upper s = s /\
  match_ registry._CRYPTO_RE s = true /\ match_ registry._FOREX_RE s = true.
Proof.
  intros Ha Hb Hc s. subst s. split.
  { simpl. rewrite !upper_ascii_capital by assumption. reflexivity. }
  unfold match_. rewrite !accepts_lang. split.
  - change (String a (String b (String c "BTC")))
      with (((String a (String b EmptyString) +:+ String c EmptyString) +:+ "BTC")
            +:+ EmptyString).
    apply lang_seq; [| apply lang_alt_l; constructor].
    apply lang_seq.
    + apply lang_seq.
      * change (String a (String b EmptyString))
          with (String a EmptyString +:+ (String b EmptyString +:+ EmptyString)).
        repeat (apply lang_seq || apply lang_eps || apply lang_upper_letter);
          assumption.
      * change (String c EmptyString) with (String c EmptyString +:+ EmptyString).
        apply lang_star_cons; [apply lang_upper_letter; assumption | constructor].
    + apply (lang_any_of _ (word "BTC")); [| apply lang_word].
      simpl. repeat constructor.
  - change (String a (String b (String c "BTC")))
      with ((String a EmptyString +:+ (String b EmptyString +:+ (String c EmptyString
             +:+ ("B" +:+ ("T" +:+ ("C" +:+ EmptyString)))))) +:+ EmptyString).
    apply lang_seq; [| apply lang_alt_l; constructor].
    repeat (apply lang_seq || apply lang_eps || apply lang_upper_letter);
      solve [assumption | reflexivity].
Qed.

End Patterns.

Section Routing.

(** Every chain is made of the four concrete providers. *)
Lemma pick_instances (symbol : string) (p : base.OHLCVProvider) :
  p ∈ registry.pick symbol -> exists id, p = instance id.
Proof.
  unfold registry.pick.
  repeat match goal with
         | |- context [if ?b then _ else _] => destruct b
         end;
    intros H; repeat (apply elem_of_cons in H as [-> | H]);
    try (inversion H; fail);
    first [ by exists Binance | by exists YFinance | by exists Tiingo | by exists Finnhub ].
Qed.

(** C2. The class of a symbol is decided by the pattern tests in the
    order crypto, stock, international stock, forex, and unknown when none
    matches: a symbol that matches the crypto pattern is routed as crypto
    whatever else it matches, and its chain starts with the Binance
    provider.  Three capital letters followed by BTC are such a symbol:
    they match the forex pattern too, and are routed as crypto. *)
Theorem classification_priority (symbol : string) :
  let hit := fun pattern => re.match_ pattern (upper symbol) in
  (hit registry._CRYPTO_RE = true ->
     classify symbol = Crypto /\ registry.pick symbol = chain Crypto
     /\ head (registry.pick symbol) = Some binance.BinanceProvider)
  /\ (hit registry._CRYPTO_RE = false -> hit registry._STOCK_RE = true ->
     classify symbol = Stock /\ registry.pick symbol = chain Stock)
  /\ (hit registry._CRYPTO_RE = false -> hit registry._STOCK_RE = false ->
      hit registry._INTL_STOCK_RE = true ->
     classify symbol = InternationalStock /\ registry.pick symbol = chain InternationalStock)
  /\ (hit registry._CRYPTO_RE = false -> hit registry._STOCK_RE = false ->
      hit registry._INTL_STOCK_RE = false -> hit registry._FOREX_RE = true ->
     classify symbol = Forex /\ registry.pick symbol = chain Forex)
  /\ (hit registry._CRYPTO_RE = false -> hit registry._STOCK_RE = false ->
      hit registry._INTL_STOCK_RE = false -> hit registry._FOREX_RE = false ->
     classify symbol = Unknown /\ registry.pick symbol = chain Unknown)
  /\ (forall a b c : ascii,
        re.in_range "A" "Z" a = true -> re.in_range "A" "Z" b = true ->
        re.in_range "A" "Z" c = true ->
        symbol = String a (String b (String c "BTC")) ->
        hit registry._FOREX_RE = true /\ hit registry._CRYPTO_RE = true
        /\ classify symbol = Crypto /\ registry.pick symbol = chain Crypto).
Proof.
  intros hit. subst hit. unfold classify, registry.pick, patterns. simpl.
  repeat split; intros;
    repeat match goal with
           | H : re.match_ _ _ = _ |- _ => rewrite H
           end; try reflexivity;
    match goal with
    | Ha : re.in_range _ _ ?a = true, Hb : re.in_range _ _ ?b = true,
      Hc : re.in_range _ _ ?c = true, Hs : symbol = _ |- _ =>
        destruct (three_capitals_BTC a b c Ha Hb Hc) as (Hup & Hcrypto & Hforex);
        subst symbol; rewrite Hup; rewrite ?Hcrypto, ?Hforex; reflexivity
    end.
Qed.

Lemma classification_priority_witness :
  re.match_ registry._FOREX_RE (upper "ETHBTC") = true
  /\ classify "ETHBTC" = Crypto
  /\ registry.pick "ETHBTC" = chain Crypto
  /\ head (registry.pick "ETHBTC") = Some binance.BinanceProvider.
Proof.
  split; [reflexivity |].
  apply (proj1 (classification_priority "ETHBTC")). reflexivity.
Defined.

(** C3. The routing table: crypto goes to Binance then yfinance; stocks
    to yfinance, Tiingo, Finnhub; international stocks and forex to
    yfinance then Finnhub; anything else to all four, in the order
    Binance, yfinance, Tiingo, Finnhub.  [pick] returns the chain of the
    class of its symbol. *)
Theorem pick_follows_routing_table (symbol : string) :
  registry.pick symbol =
  match classify symbol with
  | Crypto => [binance.BinanceProvider; yfinance.YFinanceProvider]
  | Stock => [yfinance.YFinanceProvider; tiingo.TiingoProvider; finnhub.FinnhubProvider]
  | InternationalStock => [yfinance.YFinanceProvider; finnhub.FinnhubProvider]
  | Forex => [yfinance.YFinanceProvider; finnhub.FinnhubProvider]
  | Unknown => [binance.BinanceProvider; yfinance.YFinanceProvider;
                tiingo.TiingoProvider; finnhub.FinnhubProvider]
  end.
Proof.
  unfold classify, registry.pick, patterns. simpl.
  repeat match goal with
         | |- context [if ?b then _ else _] => destruct b
         end; reflexivity.
Qed.

End Routing.

(* ===================================================================== *)
(** ** Intervals and credentials                                         *)
(* ===================================================================== *)

Section Checks.

Variable w : World.
Variables symbol interval : string.
Variable limit : Z.

Lemma key_missing_absent (var : string) :
  absent_in w var <-> tiingo.key_missing (getenv w var) = true.
Proof.
  unfold absent_in, tiingo.key_missing. destruct (getenv w var) as [k |].
  - rewrite String.eqb_eq. split; [intros [? | [= ->]]; [discriminate | reflexivity] |].
    intros ->. right; reflexivity.
  - split; auto.
Qed.

Lemma binance_interval_check :
  interval ∉ binance._VALID_INTERVALS -> binance.fetch w symbol interval limit = Ok None.
Proof.
  intros H. unfold binance.fetch.
  rewrite (bool_decide_eq_false_2 _ H). reflexivity.
Qed.

Lemma yfinance_interval_check :
  interval ∉ dom yfinance._INTERVAL_MAP -> yfinance.fetch w symbol interval limit = Ok None.
Proof.
  intros H. apply not_elem_of_dom in H. unfold yfinance.fetch. rewrite H. reflexivity.
Qed.

Lemma tiingo_interval_check :
  interval ∉ dom tiingo._RESAMPLE -> tiingo.fetch w symbol interval limit = Ok None.
Proof.
  intros H. apply not_elem_of_dom in H. unfold tiingo.fetch. rewrite H. reflexivity.
Qed.

Lemma finnhub_interval_check :
  interval ∉ dom finnhub._RESOLUTION_MAP -> finnhub.fetch w symbol interval limit = Ok None.
Proof.
  intros H. apply not_elem_of_dom in H. unfold finnhub.fetch. rewrite H. reflexivity.
Qed.

Lemma tiingo_key_check :
  interval ∈ dom tiingo._RESAMPLE -> absent_in w "TIINGO_API_KEY" ->
  tiingo.fetch w symbol interval limit = Raise RuntimeError.
Proof.
  intros [resample H]%elem_of_dom Hkey%key_missing_absent.
  unfold tiingo.fetch. rewrite H, Hkey. reflexivity.
Qed.

Lemma finnhub_key_check :
  interval ∈ dom finnhub._RESOLUTION_MAP -> absent_in w "FINNHUB_API_KEY" ->
  finnhub.fetch w symbol interval limit = Raise RuntimeError.
Proof.
  intros [resolution H]%elem_of_dom Hkey%key_missing_absent.
  unfold finnhub.fetch. change finnhub.key_missing with tiingo.key_missing.
  rewrite H, Hkey. reflexivity.
Qed.

End Checks.

(** C8. Whatever the provider, [fetch] with an interval outside the set
    that the provider declares returns [None]; it does not raise. *)
Theorem unsupported_interval_is_absence (id : provider_id) (w : World)
    (symbol interval : string) (limit : Z) :
  interval ∉ declared_intervals id ->
  base.fetch (instance id) w symbol interval limit = Ok None.
Proof.
  destruct id; simpl; intros H.
  - apply binance_interval_check; assumption.
  - apply yfinance_interval_check; assumption.
  - apply tiingo_interval_check; assumption.
  - apply finnhub_interval_check; assumption.
Qed.

Lemma unsupported_interval_is_absence_witness :
  ("4h" ∉ declared_intervals YFinance)
  /\ base.fetch (instance YFinance) examples.tiingo_answers "AAPL" "4h" 5 = Ok None
  /\ base.fetch (instance Tiingo) examples.tiingo_answers "AAPL" "4h" 5 = Ok None
  /\ base.fetch (instance Finnhub) examples.tiingo_answers "AAPL" "4h" 5 = Ok None
  /\ base.fetch (instance Binance) examples.binance_bad_row "BTCUSDT" "45m" 5 = Ok None.
Proof.
  split; [by vm_compute |].
  split; [| split; [| split]].
  - apply (unsupported_interval_is_absence YFinance). by vm_compute.
  - apply (unsupported_interval_is_absence Tiingo). by vm_compute.
  - apply (unsupported_interval_is_absence Finnhub). by vm_compute.
  - apply (unsupported_interval_is_absence Binance). by vm_compute.
Defined.

(** C10. In the Tiingo and Finnhub providers the interval is checked
    before the API key: with the key absent from the environment, an
    interval outside the declared set still gives [None], and the
    missing-key error is raised exactly for the declared intervals. *)
Theorem interval_check_precedes_credential_check (id : provider_id) (var : string)
    (w : World) (symbol interval : string) (limit : Z) :
  credential id = Some var ->
  absent_in w var ->
  (interval ∉ declared_intervals id ->
     base.fetch (instance id) w symbol interval limit = Ok None)
  /\ (interval ∈ declared_intervals id ->
     base.fetch (instance id) w symbol interval limit = Raise RuntimeError).
Proof.
  destruct id; simpl; intros [= <-] Hkey; split; intros H.
  - apply tiingo_interval_check; assumption.
  - apply tiingo_key_check; assumption.
  - apply finnhub_interval_check; assumption.
  - apply finnhub_key_check; assumption.
Qed.

Lemma interval_check_precedes_credential_check_witness :
  base.fetch (instance Tiingo) examples.no_keys "AAPL" "4h" 5 = Ok None
  /\ base.fetch (instance Tiingo) examples.no_keys "AAPL" "1d" 5 = Raise RuntimeError
  /\ base.fetch (instance Finnhub) examples.no_keys "AAPL" "2h" 5 = Ok None
  /\ base.fetch (instance Finnhub) examples.no_keys "AAPL" "1h" 5 = Raise RuntimeError.
Proof.
  assert (Ht : absent_in examples.no_keys "TIINGO_API_KEY") by (left; reflexivity).
  assert (Hf : absent_in examples.no_keys "FINNHUB_API_KEY") by (left; reflexivity).
  split; [| split; [| split]].
  - apply (proj1 (interval_check_precedes_credential_check
                    Tiingo _ examples.no_keys "AAPL" "4h" 5 eq_refl Ht)).
    by vm_compute.
  - apply (proj2 (interval_check_precedes_credential_check
                    Tiingo _ examples.no_keys "AAPL" "1d" 5 eq_refl Ht)).
    by vm_compute.
  - apply (proj1 (interval_check_precedes_credential_check
                    Finnhub _ examples.no_keys "AAPL" "2h" 5 eq_refl Hf)).
    by vm_compute.
  - apply (proj2 (interval_check_precedes_credential_check
                    Finnhub _ examples.no_keys "AAPL" "1h" 5 eq_refl Hf)).
    by vm_compute.
Defined.

(* ===================================================================== *)
(** ** The orchestrator                                                  *)
(* ===================================================================== *)

(** C1. [fetch] walks the chain of [pick] in order.  A provider whose
    [supports] says no is passed over with no call to its [fetch]; one
    whose [fetch] returns [None] or an empty list is passed over too.
    The first provider that returns a non-empty list ends the walk with
    that list, and nothing after it in the chain is called; when every
    provider is passed over the result is [None], not an exception. *)
Theorem fetch_first_usable_wins (w : World) (symbol interval : string) (limit : Z)
    (pre rest : list base.OHLCVProvider) :
  registry.pick symbol = pre ++ rest ->
  Forall (yields_nothing w symbol interval limit) pre ->
  (rest = [] ->
     registry.run (registry.fetch w symbol interval limit)
     = (Ok None, flat_map (calls_on symbol interval limit) pre))
  /\ (forall p post cs,
        rest = p :: post ->
        base.supports p symbol = true ->
        base.fetch p w symbol interval limit = Ok (Some cs) ->
        cs <> [] ->
        registry.run (registry.fetch w symbol interval limit)
        = (Ok (Some cs),
           flat_map (calls_on symbol interval limit) pre
           ++ [registry.CallSupports (base.name p) symbol;
               registry.CallFetch (base.name p) symbol interval limit])).
Proof.
  intros Hpick Hpre. unfold registry.run, registry.fetch. rewrite Hpick.
  rewrite (walk_passes_over w symbol interval limit pre rest Hpre). simpl.
  split.
  - intros ->. reflexivity.
  - intros p post cs -> Hs Hf Hne.
    rewrite (walk_wins w symbol interval limit p post cs _ Hs Hf Hne).
    unfold calls_on. rewrite Hs. reflexivity.
Qed.

Lemma fetch_first_usable_wins_witness :
  registry.run (registry.fetch examples.tiingo_answers "AAPL" "1d" 5)
  = (Ok (Some [examples.candle2; examples.candle4]),
     [registry.CallSupports "yfinance" "AAPL";
      registry.CallFetch "yfinance" "AAPL" "1d" 5;
      registry.CallSupports "tiingo" "AAPL";
      registry.CallFetch "tiingo" "AAPL" "1d" 5])
  /\ registry.run (registry.fetch examples.silent "BTC/USDT" "1d" 5)
  = (Ok None,
     [registry.CallSupports "binance" "BTC/USDT";
      registry.CallFetch "binance" "BTC/USDT" "1d" 5;
      registry.CallSupports "yfinance" "BTC/USDT";
      registry.CallSupports "tiingo" "BTC/USDT";
      registry.CallSupports "finnhub" "BTC/USDT"]).
Proof.
  assert (Hpre : Forall (yields_nothing examples.tiingo_answers "AAPL" "1d" 5)
                        [yfinance.YFinanceProvider]).
  { apply Forall_cons_2; [right; left; reflexivity | apply Forall_nil_2]. }
  assert (Hall : Forall (yields_nothing examples.silent "BTC/USDT" "1d" 5)
                        [binance.BinanceProvider; yfinance.YFinanceProvider;
                         tiingo.TiingoProvider; finnhub.FinnhubProvider]).
  { apply Forall_cons_2; [right; left; reflexivity |].
    repeat (apply Forall_cons_2; [left; reflexivity |]). apply Forall_nil_2. }
  split.
  - apply (proj2 (fetch_first_usable_wins examples.tiingo_answers "AAPL" "1d" 5
                    [yfinance.YFinanceProvider]
                    [tiingo.TiingoProvider; finnhub.FinnhubProvider] eq_refl Hpre)
                 tiingo.TiingoProvider [finnhub.FinnhubProvider]
                 [examples.candle2; examples.candle4]);
      [reflexivity | reflexivity | by vm_compute | discriminate].
  - apply (proj1 (fetch_first_usable_wins examples.silent "BTC/USDT" "1d" 5
                    [binance.BinanceProvider; yfinance.YFinanceProvider;
                     tiingo.TiingoProvider; finnhub.FinnhubProvider] []
                    eq_refl Hall)).
    reflexivity.
Defined.

(** C4. With its API key absent from the environment and an interval
    that it declares, the [fetch] of Tiingo and of Finnhub raises.  The
    orchestrator does not catch the exception: when the walk reaches
    such a provider it ends with that exception, and nothing after the
    provider in the chain is called. *)
Theorem missing_credential_aborts_chain (id : provider_id) (var : string) (w : World)
    (symbol interval : string) (limit : Z) :
  credential id = Some var ->
  absent_in w var ->
  interval ∈ declared_intervals id ->
  base.fetch (instance id) w symbol interval limit = Raise RuntimeError
  /\ (forall pre post,
        registry.pick symbol = pre ++ instance id :: post ->
        Forall (yields_nothing w symbol interval limit) pre ->
        base.supports (instance id) symbol = true ->
        registry.run (registry.fetch w symbol interval limit)
        = (Raise RuntimeError,
           flat_map (calls_on symbol interval limit) pre
           ++ [registry.CallSupports (base.name (instance id)) symbol;
               registry.CallFetch (base.name (instance id)) symbol interval limit])).
Proof.
  intros Hcred Hkey Hint.
  assert (Hraise : base.fetch (instance id) w symbol interval limit = Raise RuntimeError).
  { destruct id; simpl in *; try discriminate; injection Hcred as <-.
    - apply tiingo_key_check; assumption.
    - apply finnhub_key_check; assumption. }
  split; [assumption |].
  intros pre post Hpick Hpre Hs.
  unfold registry.run, registry.fetch. rewrite Hpick.
  rewrite (walk_passes_over w symbol interval limit pre _ Hpre). simpl app.
  rewrite (walk_raises w symbol interval limit _ post _ _ Hs Hraise).
  unfold calls_on. rewrite Hs. reflexivity.
Qed.

Lemma missing_credential_aborts_chain_witness :
  base.fetch tiingo.TiingoProvider examples.no_keys "AAPL" "1d" 5 = Raise RuntimeError
  /\ registry.run (registry.fetch examples.no_keys "AAPL" "1d" 5)
  = (Raise RuntimeError,
     [registry.CallSupports "yfinance" "AAPL";
      registry.CallFetch "yfinance" "AAPL" "1d" 5;
      registry.CallSupports "tiingo" "AAPL";
      registry.CallFetch "tiingo" "AAPL" "1d" 5]).
Proof.
  assert (Hkey : absent_in examples.no_keys "TIINGO_API_KEY") by (left; reflexivity).
  assert (Hint : "1d" ∈ declared_intervals Tiingo) by (by vm_compute).
  destruct (missing_credential_aborts_chain Tiingo _ examples.no_keys "AAPL" "1d" 5
              eq_refl Hkey Hint) as [Hraise Hwalk].
  split; [exact Hraise |].
  apply (Hwalk [yfinance.YFinanceProvider] [finnhub.FinnhubProvider] eq_refl);
    [| reflexivity].
  apply Forall_cons_2; [right; left; reflexivity | apply Forall_nil_2].
Defined.

(* ===================================================================== *)
(** ** Normalisation loops                                               *)
(* ===================================================================== *)

Section Loops.

Context {R A : Type}.
Variable caught : exn -> bool.
Variable build : R -> pyres A.

Lemma bind_Ok_inv {X Y : Type} (m : pyres X) (k : X -> pyres Y) (y : Y) :
  (x ← m; k x) = Ok y -> exists x, m = Ok x /\ k x = Ok y.
Proof. destruct m as [x | e]; [eauto | discriminate]. Qed.

(** When the loop ends normally it has kept, in order, exactly the rows
    whose candle could be built. *)
Lemma collect_Ok (rows : list R) :
  forall acc cs,
    collect caught build rows acc = Ok cs ->
    cs = acc ++ omap (fun row => ok_value (build row)) rows.
Proof.
  induction rows as [| row rows IH]; intros acc cs H; simpl in *.
  - injection H as <-. rewrite app_nil_r. reflexivity.
  - destruct (build row) as [c | e]; simpl.
    + rewrite (IH _ _ H), <- app_assoc. reflexivity.
    + destruct (caught e); [apply IH; assumption | discriminate].
Qed.

(** It ends normally when every exception raised by a row is caught, and
    then the rows that raised are dropped and the others kept. *)
Lemma collect_drops_caught (rows : list R) :
  Forall (fun row => forall e, build row = Raise e -> caught e = true) rows ->
  forall acc,
    collect caught build rows acc
    = Ok (acc ++ omap (fun row => ok_value (build row)) rows).
Proof.
  induction 1 as [| row rows Hrow _ IH]; intros acc; simpl.
  - rewrite app_nil_r. reflexivity.
  - destruct (build row) as [c | e]; simpl.
    + rewrite IH, <- app_assoc. reflexivity.
    + rewrite (Hrow e eq_refl). apply IH.
Qed.


(** A comprehension keeps every row, or raises with the first row that does. *)
Lemma comprehension_Ok (rows : list R) :
  forall cs,
    comprehension build rows = Ok cs ->
    cs = omap (fun row => ok_value (build row)) rows /\ length cs = length rows.
Proof.
  induction rows as [| row rows IH]; intros cs H; simpl in *.
  - injection H as <-. auto.
  - apply bind_Ok_inv in H as (c & Hc & H).
    apply bind_Ok_inv in H as (cs' & Hcs & H).
    injection H as <-. rewrite Hc; simpl.
    destruct (IH _ Hcs) as [Heq Hlen].
    split; [f_equal; exact Heq | simpl; rewrite Hlen; reflexivity].
Qed.

Lemma comprehension_aborts (rows : list R) :
  Exists (fun row => exists e, build row = Raise e) rows ->
  exists e, comprehension build rows = Raise e.
Proof.
  induction 1 as [row rows [e He] | row rows _ [e IH]]; simpl.
  - exists e. rewrite He. reflexivity.
  - destruct (build row) as [c | e']; simpl; [| eauto].
    exists e. rewrite IH. reflexivity.
Qed.

End Loops.

(** A comprehension that ends normally has built every row, in order. *)
Lemma comprehension_Forall2 {R A : Type} (build : R -> pyres A) (rows : list R) :
  forall cs,
    comprehension build rows = Ok cs ->
    Forall2 (fun row c => build row = Ok c) rows cs.
Proof.
  induction rows as [| row rows IH]; intros cs H; simpl in H.
  - injection H as <-. constructor.
  - apply bind_Ok_inv in H as (c & Hc & H).
    apply bind_Ok_inv in H as (cs' & Hcs & H). injection H as <-.
    constructor; [assumption | apply IH; assumption].
Qed.

Section Lists.

Context {A B C : Type}.

Lemma length_omap_le (f : A -> option B) (l : list A) :
  (length (omap f l) <= length l)%nat.
Proof.
  unfold omap. induction l as [| x l IH]; simpl; [lia |].
  destruct (f x); simpl; lia.
Qed.

Lemma sublist_omap (f : A -> option B) (l1 l2 : list A) :
  l1 `sublist_of` l2 -> omap f l1 `sublist_of` omap f l2.
Proof.
  induction 1 as [| x l1 l2 _ IH | x l1 l2 _ IH]; simpl.
  - constructor.
  - destruct (f x); [constructor |]; assumption.
  - destruct (f x); [constructor |]; assumption.
Qed.

(** Rows kept by [f] read, through [h], as a subsequence of what [g]
    reads off all rows. *)
Lemma omap_sublist_of_omap (f : A -> option B) (g : A -> option C) (h : B -> C)
    (l : list A) :
  (forall x y, f x = Some y -> g x = Some (h y)) ->
  h <$> omap f l `sublist_of` omap g l.
Proof.
  intros Hfg. induction l as [| x l IH]; simpl; [constructor |].
  destruct (f x) as [y |] eqn:Hf; simpl.
  - rewrite (Hfg _ _ Hf). constructor. assumption.
  - destruct (g x); [constructor |]; assumption.
Qed.

Lemma omap_lookup_seq (f : A -> option B) (l : list A) :
  forall pre,
    omap (fun i => (pre ++ l) !! i ≫= f) (seq (length pre) (length l)) = omap f l.
Proof.
  unfold omap. induction l as [| x l IH]; intros pre; simpl; [reflexivity |].
  rewrite list_lookup_middle by reflexivity. simpl.
  specialize (IH (pre ++ [x])).
  rewrite <- app_assoc, length_app in IH. simpl in IH.
  rewrite Nat.add_1_r in IH. rewrite IH. reflexivity.
Qed.

Lemma slice_from_sublist (start : Z) (l : list A) : slice_from start l `sublist_of` l.
Proof. unfold slice_from. destruct (start <? 0); apply sublist_drop. Qed.

(** [l[-n:]] holds at most [n] elements once [n] is positive. *)
Lemma slice_last_length (n : Z) (l : list A) :
  1 <= n -> Z.of_nat (length (slice_from (- n) l)) <= n.
Proof.
  intros Hn. unfold slice_from.
  destruct (Z.ltb_spec (- n) 0); [| lia].
  rewrite length_drop. lia.
Qed.

End Lists.

Lemma oldest_first_sublist (l1 l2 : list Z) :
  l1 `sublist_of` l2 -> oldest_first l2 -> oldest_first l1.
Proof.
  unfold oldest_first. induction 1 as [| x l1 l2 Hsub IH | x l1 l2 Hsub IH]; intros Hs.
  - constructor.
  - apply StronglySorted_inv in Hs as [Hs Hx].
    constructor; [auto |].
    apply Forall_forall. intros y Hy.
    apply (proj1 (Forall_forall _ _) Hx). eapply elem_of_sublist; eassumption.
  - apply StronglySorted_inv in Hs as [Hs _]. auto.
Qed.

Lemma tail_sublist (n : Z) (df : DataFrame) : tail n df `sublist_of` df.
Proof.
  unfold tail. destruct (n =? 0); [apply sublist_nil_l | apply slice_from_sublist].
Qed.

Lemma tail_length (n : Z) (df : DataFrame) :
  1 <= n -> Z.of_nat (length (tail n df)) <= n.
Proof.
  intros Hn. unfold tail. destruct (Z.eqb_spec n 0); [lia |].
  apply slice_last_length. assumption.
Qed.

Lemma or_none_Some {A : Type} (l cs : list A) :
  or_none l = Some cs -> cs = l /\ l <> [].
Proof. destruct l; [discriminate |]. intros [= <-]. split; [reflexivity | discriminate]. Qed.

(* ===================================================================== *)
(** ** What each provider returns                                        *)
(* ===================================================================== *)

Section Providers.

Variable w : World.

Lemma binance_candle_time (row : kline) (c : Candle) :
  binance.candle_of_row w row = Ok c -> kline_time w row = Some (time c).
Proof.
  unfold binance.candle_of_row, kline_time. intros H. invert_binds H.
  apply new_time in H. simpl. rewrite ?Hx0. simpl. rewrite H. reflexivity.
Qed.

Lemma yfinance_candle_time (r : float * gmap string pyval) (c : Candle) :
  yfinance.candle_of_row w r = Ok c -> frame_time r = Some (time c).
Proof.
  unfold yfinance.candle_of_row, frame_time. destruct r as [ts row]. intros H.
  invert_binds H. apply new_time in H. simpl. rewrite ?Hx. simpl. rewrite H. reflexivity.
Qed.

Lemma tiingo_candle_time (row : gmap string pyval) (c : Candle) :
  tiingo.candle_of_row w row = Ok c -> tiingo_time w row = Some (time c).
Proof.
  unfold tiingo.candle_of_row, tiingo_time. intros H. invert_binds H.
  apply new_time in H. simpl. rewrite ?Hx0. simpl. rewrite ?Hx1. simpl.
  rewrite H. reflexivity.
Qed.

Lemma finnhub_candle_time (ts os hs ls cs vs : list pyval) (i : nat) (c : Candle) :
  finnhub.candle_at w ts os hs ls cs vs i = Ok c ->
  ts !! i ≫= (fun ti => ok_value (py_int w ti)) = Some (time c).
Proof.
  unfold finnhub.candle_at. intros H. invert_binds H.
  apply new_time in H. unfold getitem in Hx.
  destruct (ts !! i) as [ti |]; [| discriminate]. injection Hx as ->.
  simpl. rewrite Hx0; simpl. rewrite H. reflexivity.
Qed.

Variables symbol interval : string.
Variable limit : Z.

(** Binance: one candle per kline of the reply, in the order of the reply. *)
Lemma binance_fetch_Some (cs : list Candle) :
  binance.fetch w symbol interval limit = Ok (Some cs) ->
  exists resp,
    binance_klines w (binance._normalise symbol) interval (Z.min limit 1000) = Ok resp
    /\ cs = omap (fun row => ok_value (binance.candle_of_row w row)) (json resp)
    /\ length cs = length (json resp).
Proof.
  unfold binance.fetch.
  destruct (bool_decide (interval ∈ binance._VALID_INTERVALS)); simpl; [| discriminate].
  intros H. apply bind_Ok_inv in H as (resp & Hresp & H).
  destruct (status resp =? 200); simpl in H; [| discriminate].
  exists resp. split; [assumption |].
  destruct (json resp) as [| row rows] eqn:Hdata; [discriminate |].
  apply bind_Ok_inv in H as (candles & Hc & H). injection H as <-.
  apply comprehension_Ok in Hc. exact Hc.
Qed.

(** yfinance: the candles that can be built from the last rows of the frame. *)
Lemma yfinance_fetch_Some (cs : list Candle) :
  yfinance.fetch w symbol interval limit = Ok (Some cs) ->
  exists ticker yf_interval start df,
    yfinance_download w ticker yf_interval start = Some df
    /\ cs = omap (fun r => ok_value (yfinance.candle_of_row w r)) (tail limit df).
Proof.
  unfold yfinance.fetch.
  destruct (yfinance._INTERVAL_MAP !! interval) as [yf_interval |]; [| discriminate].
  intros H. apply bind_Ok_inv in H as (bar & _ & H).
  apply bind_Ok_inv in H as (n & _ & H).
  apply bind_Ok_inv in H as (delta & _ & H).
  apply bind_Ok_inv in H as (start & _ & H).
  destruct (yfinance_download w _ yf_interval start) as [df |] eqn:Hdf;
    [| discriminate].
  exists (yfinance._to_yf_symbol symbol), yf_interval, start, df.
  split; [assumption |].
  destruct df as [| r df']; [discriminate |].
  apply bind_Ok_inv in H as (candles & Hc & H). injection H as H.
  apply or_none_Some in H as [-> _].
  apply collect_Ok in Hc. exact Hc.
Qed.

(** Tiingo: the candles that can be built from the last rows of the reply. *)
Lemma tiingo_fetch_Some (cs : list Candle) :
  tiingo.fetch w symbol interval limit = Ok (Some cs) ->
  exists ticker resample start key rows,
    tiingo_download w ticker resample start key = Some rows
    /\ cs = omap (fun row => ok_value (tiingo.candle_of_row w row))
                 (slice_from (- limit) rows).
Proof.
  unfold tiingo.fetch.
  destruct (tiingo._RESAMPLE !! interval) as [resample |]; [| discriminate].
  destruct (tiingo.key_missing _); [discriminate |].
  intros H. apply bind_Ok_inv in H as (bar & _ & H).
  apply bind_Ok_inv in H as (n & _ & H).
  apply bind_Ok_inv in H as (delta & _ & H).
  apply bind_Ok_inv in H as (start & _ & H).
  destruct (tiingo_download w _ resample start _) as [rows |] eqn:Hrows;
    [| discriminate].
  eexists _, resample, start, _, rows. split; [eassumption |].
  destruct rows as [| row rows']; [discriminate |].
  apply bind_Ok_inv in H as (candles & Hc & H). injection H as H.
  apply or_none_Some in H as [-> _].
  apply collect_Ok in Hc. exact Hc.
Qed.

(** Finnhub: the last candles among those that can be built from the reply. *)
Lemma finnhub_parse_Some (raw : option finnhub_reply) (cs : list Candle) :
  finnhub._parse w raw limit = Ok (Some cs) ->
  exists reply candles,
    raw = Some reply
    /\ cs = slice_from (- limit) candles
    /\ time <$> candles `sublist_of` finnhub_times w reply.
Proof.
  unfold finnhub._parse. destruct raw as [reply |]; [| discriminate].
  intros H. apply bind_Ok_inv in H as (candles & Hc & H). injection H as H.
  apply or_none_Some in H as [-> _].
  exists reply, candles. split; [reflexivity |]. split; [reflexivity |].
  apply collect_Ok in Hc. simpl in Hc. subst candles.
  unfold finnhub_times.
  rewrite <- (omap_lookup_seq (fun ti => ok_value (py_int w ti)) _ []).
  apply omap_sublist_of_omap.
  intros i c Hi.
  destruct (finnhub.candle_at _ _ _ _ _ _ _ i) eqn:Hat; [| discriminate].
  injection Hi as ->. apply (finnhub_candle_time _ _ _ _ _ _ _ _ Hat).
Qed.

Lemma finnhub_fetch_Some (cs : list Candle) :
  finnhub.fetch w symbol interval limit = Ok (Some cs) ->
  exists sym resolution from_ts to_ts key reply candles,
    (finnhub_stock_candles w sym resolution from_ts to_ts key = Some reply
     \/ finnhub_forex_candles w sym resolution from_ts to_ts key = Some reply)
    /\ cs = slice_from (- limit) candles
    /\ time <$> candles `sublist_of` finnhub_times w reply.
Proof.
  unfold finnhub.fetch.
  destruct (finnhub._RESOLUTION_MAP !! interval) as [resolution |]; [| discriminate].
  destruct (finnhub.key_missing _); [discriminate |].
  intros H. apply bind_Ok_inv in H as (bar & _ & H).
  apply bind_Ok_inv in H as (n & _ & H).
  apply finnhub_parse_Some in H as (reply & candles & Hraw & Hcs & Hsub).
  destruct (re.match_ finnhub._FOREX_RE (upper symbol)).
  - eexists _, resolution, _, _, _, reply, candles.
    split; [right; exact Hraw | auto].
  - eexists _, resolution, _, _, _, reply, candles.
    split; [left; exact Hraw | auto].
Qed.

(** For a positive limit, and with Binance keeping to the limit it is
    sent, no provider returns more than [limit] candles. *)
Lemma provider_result_bounded (id : provider_id) (cs : list Candle) :
  base.fetch (instance id) w symbol interval limit = Ok (Some cs) ->
  1 <= limit ->
  binance_honours_limit w ->
  Z.of_nat (length cs) <= limit.
Proof.
  intros H Hlimit Hbinance. destruct id; simpl in H.
  - apply binance_fetch_Some in H as (resp & Hresp & _ & Hlen).
    apply Hbinance in Hresp. lia.
  - apply yfinance_fetch_Some in H as (ticker & yf & bar & df & _ & ->).
    pose proof (length_omap_le (fun r => ok_value (yfinance.candle_of_row w r))
                  (tail limit df)).
    pose proof (tail_length limit df Hlimit). lia.
  - apply tiingo_fetch_Some in H as (ticker & resample & bar & key & rows & _ & ->).
    pose proof (length_omap_le (fun r => ok_value (tiingo.candle_of_row w r))
                  (slice_from (- limit) rows)).
    pose proof (slice_last_length limit rows Hlimit). lia.
  - apply finnhub_fetch_Some in H
      as (sym & resolution & from_ts & to_ts & key & reply & candles & _ & -> & _).
    apply slice_last_length. assumption.
Qed.

(** With every upstream answering oldest first, so does every provider. *)
Lemma provider_result_ordered (id : provider_id) (cs : list Candle) :
  base.fetch (instance id) w symbol interval limit = Ok (Some cs) ->
  upstreams_oldest_first w ->
  oldest_first (time <$> cs).
Proof.
  intros H Hup. destruct id; simpl in H.
  - apply binance_fetch_Some in H as (resp & Hresp & -> & _).
    eapply oldest_first_sublist; [| eapply binance_oldest_first; eassumption].
    apply omap_sublist_of_omap. intros row c Hrow. apply binance_candle_time.
    destruct (binance.candle_of_row w row); [| discriminate].
    injection Hrow as ->. reflexivity.
  - apply yfinance_fetch_Some in H as (ticker & yf & bar & df & Hdf & ->).
    eapply oldest_first_sublist; [| eapply yfinance_oldest_first; eassumption].
    etrans; [| apply sublist_omap, (tail_sublist limit)].
    apply omap_sublist_of_omap. intros r c Hr. apply yfinance_candle_time.
    destruct (yfinance.candle_of_row w r); [| discriminate].
    injection Hr as ->. reflexivity.
  - apply tiingo_fetch_Some in H as (ticker & resample & bar & key & rows & Hrows & ->).
    eapply oldest_first_sublist; [| eapply tiingo_oldest_first; eassumption].
    etrans; [| apply sublist_omap, (slice_from_sublist (- limit))].
    apply omap_sublist_of_omap. intros row c Hrow. apply tiingo_candle_time.
    destruct (tiingo.candle_of_row w row); [| discriminate].
    injection Hrow as ->. reflexivity.
  - apply finnhub_fetch_Some in H
      as (sym & resolution & from_ts & to_ts & key & reply & candles & Hreply & -> & Hsub).
    assert (Hsorted : oldest_first (finnhub_times w reply)).
    { destruct Hreply as [Hreply | Hreply];
        [eapply finnhub_stock_oldest_first | eapply finnhub_forex_oldest_first];
        eassumption. }
    eapply oldest_first_sublist; [| exact Hsorted].
    etrans; [| exact Hsub].
    apply fmap_sublist, slice_from_sublist.
Qed.

End Providers.

(* ===================================================================== *)
(** ** Bad rows                                                          *)
(* ===================================================================== *)

(** The error of [__post_init__] is one that the loops of yfinance,
    Tiingo and Finnhub catch: there a rejected candle costs its row only. *)
Lemma rejected_candle_is_caught (t : Z) (o h l c v : float) (e : exn) :
  models.new t o h l c v = Raise e ->
  yfinance.caught e = true /\ tiingo.caught e = true /\ finnhub.caught e = true.
Proof. intros [-> _]%new_Raise_iff. repeat split. Qed.

(** The comprehension of the Binance provider catches nothing: one kline
    that cannot be turned into a candle makes the whole [fetch] raise. *)
Lemma binance_row_failure_aborts (w : World) (symbol interval : string) (limit : Z)
    (resp : http_response) :
  interval ∈ binance._VALID_INTERVALS ->
  binance_klines w (binance._normalise symbol) interval (Z.min limit 1000) = Ok resp ->
  status resp = 200 ->
  Exists (fun row => exists e, binance.candle_of_row w row = Raise e) (json resp) ->
  exists e, binance.fetch w symbol interval limit = Raise e.
Proof.
  intros Hint Hresp Hstatus Hbad. unfold binance.fetch.
  rewrite (bool_decide_eq_true_2 _ Hint), Hresp. simpl. rewrite Hstatus. simpl.
  destruct (comprehension_aborts (binance.candle_of_row w) _ Hbad) as [e He].
  exists e. destruct (json resp) as [| row rows]; [inversion Hbad |].
  rewrite He. reflexivity.
Qed.

(** C5 (the code departs from it). Binance answers with three klines, the
    second with its high below its low.  [Candle] raises [ValueError] on
    that kline; the comprehension does not catch it, so [fetch] of the
    provider raises and so does the orchestrator: no kline of the batch
    is returned.  Tiingo, given the same three bars, drops the bad one
    and returns the other two. *)
Theorem binance_bad_row_aborts_batch :
  binance.candle_of_row examples.binance_bad_row examples.kline3_bad = Raise ValueError
  /\ binance.fetch examples.binance_bad_row "BTCUSDT" "1d" 5 = Raise ValueError
  /\ registry.run (registry.fetch examples.binance_bad_row "BTCUSDT" "1d" 5)
     = (Raise ValueError,
        [registry.CallSupports "binance" "BTCUSDT";
         registry.CallFetch "binance" "BTCUSDT" "1d" 5])
  /\ tiingo.fetch examples.tiingo_answers "AAPL" "1d" 5
     = Ok (Some [examples.candle2; examples.candle4]).
Proof. repeat split; vm_compute; reflexivity. Qed.

(** A field that is [null] raises [TypeError] in [float], which neither
    yfinance, Tiingo nor Finnhub catches: such a row ends their loops too. *)
Lemma null_field_is_not_caught (w : World) :
  py_float w PNone = Raise TypeError
  /\ yfinance.caught TypeError = false
  /\ tiingo.caught TypeError = false
  /\ finnhub.caught TypeError = false.
Proof. repeat split. Qed.

Lemma tiingo_null_field_aborts_batch :
  tiingo.candle_of_row examples.tiingo_null_field examples.day3_null = Raise TypeError
  /\ tiingo.fetch examples.tiingo_null_field "AAPL" "1d" 5 = Raise TypeError.
Proof. split; vm_compute; reflexivity. Qed.

(** A row of NaN cells is not rejected: it becomes a candle of NaNs. *)
Lemma yfinance_keeps_nan_row :
  registry.run (registry.fetch examples.yfinance_nan_row "AAPL" "1d" 5)
  = (Ok (Some [examples.nan_candle]),
     [registry.CallSupports "yfinance" "AAPL";
      registry.CallFetch "yfinance" "AAPL" "1d" 5]).
Proof. vm_compute. reflexivity. Qed.

(** C9 (the code departs from it). A candle whose high is a NaN passes
    [__post_init__], because [nan < low] is false; yet [high >= low] is
    false for it as well. *)
Theorem candle_accepts_nan_high :
  models.new 1 one S754_nan one one zero
  = Ok {| time := 1; open := one; high := S754_nan; low := one; close := one;
          volume := zero |}
  /\ SFltb S754_nan one = false
  /\ SFleb one S754_nan = false.
Proof. repeat split. Qed.

(* ===================================================================== *)
(** ** Length and order of the result                                    *)
(* ===================================================================== *)

Section Recent.

Variable w : World.
Variables symbol interval : string.
Variable limit : Z.
Hypothesis Hlimit : 1 <= limit.

Lemma most_recent_length {A : Type} (l : list A) :
  Z.of_nat (length (most_recent limit l)) <= limit.
Proof. unfold most_recent. rewrite length_drop. lia. Qed.

(** For a limit of at least one, [l[-limit:]] and [df.tail(limit)] are
    the most recent [limit] entries. *)
Lemma slice_from_most_recent {A : Type} (l : list A) :
  slice_from (- limit) l = most_recent limit l.
Proof.
  unfold slice_from, most_recent.
  destruct (Z.ltb_spec (- limit) 0); [| lia]. f_equal. lia.
Qed.

Lemma tail_most_recent (df : DataFrame) : tail limit df = most_recent limit df.
Proof.
  unfold tail. destruct (Z.eqb_spec limit 0); [lia |]. apply slice_from_most_recent.
Qed.

Lemma provider_made_of_most_recent (id : provider_id) (cs : list Candle) :
  base.fetch (instance id) w symbol interval limit = Ok (Some cs) ->
  made_of_most_recent w symbol interval limit id cs.
Proof.
  destruct id; simpl; intros H.
  - (* Binance *)
    unfold binance.fetch in H.
    destruct (bool_decide (interval ∈ binance._VALID_INTERVALS)); simpl in H;
      [| discriminate].
    apply bind_Ok_inv in H as (resp & Hresp & H).
    destruct (status resp =? 200); simpl in H; [| discriminate].
    exists resp. split; [assumption |].
    destruct (json resp) as [| row rows]; [discriminate |].
    apply bind_Ok_inv in H as (candles & Hc & H). injection H as <-.
    apply comprehension_Forall2. assumption.
  - (* yfinance *)
    unfold yfinance.fetch in H.
    destruct (yfinance._INTERVAL_MAP !! interval) as [yf_interval |] eqn:Hi;
      [| discriminate].
    apply bind_Ok_inv in H as (bar & _ & H).
    apply bind_Ok_inv in H as (n & _ & H).
    apply bind_Ok_inv in H as (delta & _ & H).
    apply bind_Ok_inv in H as (start & _ & H).
    destruct (yfinance_download w _ yf_interval start) as [df |] eqn:Hdf;
      [| discriminate].
    exists yf_interval, start, df. split; [reflexivity |]. split; [assumption |].
    destruct df as [| r df']; [discriminate |].
    apply bind_Ok_inv in H as (candles & Hc & H). injection H as H.
    apply or_none_Some in H as [-> _].
    apply collect_Ok in Hc. rewrite tail_most_recent in Hc. exact Hc.
  - (* Tiingo *)
    unfold tiingo.fetch in H.
    destruct (tiingo._RESAMPLE !! interval) as [resample |] eqn:Hi; [| discriminate].
    destruct (getenv w "TIINGO_API_KEY") as [key |] eqn:Hkey; [| discriminate].
    destruct (tiingo.key_missing (Some key)); [discriminate |].
    apply bind_Ok_inv in H as (bar & _ & H).
    apply bind_Ok_inv in H as (n & _ & H).
    apply bind_Ok_inv in H as (delta & _ & H).
    apply bind_Ok_inv in H as (start & _ & H).
    destruct (tiingo_download w _ resample start _) as [rows |] eqn:Hrows;
      [| discriminate].
    exists resample, start, key, rows.
    split; [reflexivity |]. split; [reflexivity |]. split; [assumption |].
    destruct rows as [| row rows']; [discriminate |].
    apply bind_Ok_inv in H as (candles & Hc & H). injection H as H.
    apply or_none_Some in H as [-> _].
    apply collect_Ok in Hc. rewrite slice_from_most_recent in Hc. exact Hc.
  - (* Finnhub *)
    unfold finnhub.fetch in H.
    destruct (finnhub._RESOLUTION_MAP !! interval) as [resolution |] eqn:Hi;
      [| discriminate].
    destruct (getenv w "FINNHUB_API_KEY") as [key |] eqn:Hkey; [| discriminate].
    destruct (finnhub.key_missing (Some key)); [discriminate |].
    apply bind_Ok_inv in H as (bar & _ & H).
    apply bind_Ok_inv in H as (n & _ & H).
    assert (Hparse : forall raw,
              finnhub._parse w raw limit = Ok (Some cs) ->
              exists reply, raw = Some reply
                            /\ cs = most_recent limit (finnhub_candles w reply)).
    { intros [reply |] Hp; [| discriminate]. exists reply. split; [reflexivity |].
      unfold finnhub._parse in Hp.
      apply bind_Ok_inv in Hp as (candles & Hc & Hp). injection Hp as Hp.
      apply or_none_Some in Hp as [-> _].
      apply collect_Ok in Hc. simpl in Hc. subst candles.
      apply slice_from_most_recent. }
    apply Hparse in H as (reply & Hraw & ->).
    exists resolution, (now w - bar * n), key, reply.
    split; [reflexivity |]. split; [reflexivity |]. split; [| reflexivity].
    destruct (re.match_ finnhub._FOREX_RE (upper symbol));
      [right | left]; exact Hraw.
Qed.

(** No provider but Binance returns more than [limit] candles, and
    Binance does not when its upstream keeps to the limit it is sent. *)
Lemma made_of_most_recent_bounded (id : provider_id) (cs : list Candle) :
  made_of_most_recent w symbol interval limit id cs ->
  id <> Binance \/ binance_honours_limit w ->
  Z.of_nat (length cs) <= limit.
Proof.
  destruct id; simpl.
  - intros (resp & Hresp & Hall) [Hid | Hbinance]; [congruence |].
    apply Hbinance in Hresp. apply Forall2_length in Hall. lia.
  - intros (yf_interval & start & df & _ & _ & ->) _.
    pose proof (length_omap_le (fun r => ok_value (yfinance.candle_of_row w r))
                  (most_recent limit df)).
    pose proof (most_recent_length df). lia.
  - intros (resample & start & key & rows & _ & _ & _ & ->) _.
    pose proof (length_omap_le (fun r => ok_value (tiingo.candle_of_row w r))
                  (most_recent limit rows)).
    pose proof (most_recent_length rows). lia.
  - intros (resolution & from_ts & key & reply & _ & _ & _ & ->) _.
    apply most_recent_length.
Qed.

End Recent.

(** C6 (as amended). A list returned by the orchestrator is never
    empty.  For a limit of at least one it is the list of one provider
    of the chain, which holds the most recent [limit] bars of what its
    upstream sent: yfinance and Tiingo build it from the last [limit]
    rows of the reply, Finnhub keeps the last [limit] of the candles it
    could build, and Binance, which asks for [min(limit, 1000)] klines,
    returns one candle for each row of the reply.  So the list holds at
    most [limit] candles when it is not the list of Binance, and also
    when Binance keeps to the limit it is sent. *)
Theorem fetch_at_most_limit (w : World) (symbol interval : string) (limit : Z)
    (cs : list Candle) (log : list registry.call) :
  registry.run (registry.fetch w symbol interval limit) = (Ok (Some cs), log) ->
  cs <> []
  /\ (1 <= limit ->
      exists id,
        instance id ∈ registry.pick symbol
        /\ base.fetch (instance id) w symbol interval limit = Ok (Some cs)
        /\ made_of_most_recent w symbol interval limit id cs
        /\ (id <> Binance \/ binance_honours_limit w ->
            Z.of_nat (length cs) <= limit)).
Proof.
  unfold registry.run, registry.fetch. intros H.
  apply walk_result_from_chain in H as (Hne & p & Hp & _ & Hf).
  split; [assumption |]. intros Hlimit.
  destruct (pick_instances _ _ Hp) as [id ->].
  exists id. split; [assumption |]. split; [assumption |].
  pose proof (provider_made_of_most_recent w symbol interval limit Hlimit id cs Hf)
    as Hmade.
  split; [assumption |].
  apply (made_of_most_recent_bounded w symbol interval limit Hlimit id cs Hmade).
Qed.

Lemma fetch_at_most_limit_witness :
  registry.run (registry.fetch examples.tiingo_answers "AAPL" "1d" 1)
  = (Ok (Some [examples.candle4]),
     [registry.CallSupports "yfinance" "AAPL";
      registry.CallFetch "yfinance" "AAPL" "1d" 1;
      registry.CallSupports "tiingo" "AAPL";
      registry.CallFetch "tiingo" "AAPL" "1d" 1])
  /\ tiingo_download examples.tiingo_answers "AAPL" "daily" 0 "secret"
     = Some [examples.day2; examples.day3_bad; examples.day4]
  /\ (exists id,
        instance id ∈ registry.pick "AAPL"
        /\ base.fetch (instance id) examples.tiingo_answers "AAPL" "1d" 1
           = Ok (Some [examples.candle4])
        /\ made_of_most_recent examples.tiingo_answers "AAPL" "1d" 1 id
             [examples.candle4]
        /\ (id <> Binance \/ binance_honours_limit examples.tiingo_answers ->
            Z.of_nat (length [examples.candle4]) <= 1))
  /\ binance_honours_limit examples.binance_most_recent
  /\ registry.run (registry.fetch examples.binance_most_recent "BTCUSDT" "1d" 1)
     = (Ok (Some [examples.candle4]),
        [registry.CallSupports "binance" "BTCUSDT";
         registry.CallFetch "binance" "BTCUSDT" "1d" 1])
  /\ Z.of_nat (length [examples.candle4]) <= 1.
Proof.
  assert (Hrun : registry.run (registry.fetch examples.tiingo_answers "AAPL" "1d" 1)
                 = (Ok (Some [examples.candle4]),
                    [registry.CallSupports "yfinance" "AAPL";
                     registry.CallFetch "yfinance" "AAPL" "1d" 1;
                     registry.CallSupports "tiingo" "AAPL";
                     registry.CallFetch "tiingo" "AAPL" "1d" 1]))
    by (vm_compute; reflexivity).
  assert (Hbinance : binance_honours_limit examples.binance_most_recent).
  { intros ticker interval limit resp [= <-]. unfold most_recent. simpl json.
    rewrite length_drop. simpl length. lia. }
  assert (Hrun' : registry.run
                    (registry.fetch examples.binance_most_recent "BTCUSDT" "1d" 1)
                  = (Ok (Some [examples.candle4]),
                     [registry.CallSupports "binance" "BTCUSDT";
                      registry.CallFetch "binance" "BTCUSDT" "1d" 1]))
    by (vm_compute; reflexivity).
  destruct (fetch_at_most_limit _ _ _ _ _ _ Hrun) as [_ Hrecent].
  destruct (fetch_at_most_limit _ _ _ _ _ _ Hrun') as [_ Hrecent'].
  split; [exact Hrun |]. split; [reflexivity |].
  split; [apply Hrecent; lia |].
  split; [exact Hbinance |]. split; [exact Hrun' |].
  destruct (Hrecent' ltac:(lia)) as (id & _ & _ & _ & Hle).
  apply Hle. right. exact Hbinance.
Defined.

(** With a limit of zero Tiingo's [rows[-limit:]] is the whole reply, and
    Binance returns as many candles as the reply has klines. *)
Lemma fetch_exceeds_limit :
  registry.run (registry.fetch examples.tiingo_answers "AAPL" "1d" 0)
  = (Ok (Some [examples.candle2; examples.candle4]),
     [registry.CallSupports "yfinance" "AAPL";
      registry.CallFetch "yfinance" "AAPL" "1d" 0;
      registry.CallSupports "tiingo" "AAPL";
      registry.CallFetch "tiingo" "AAPL" "1d" 0])
  /\ (Z.of_nat (length [examples.candle2; examples.candle4]) <=? 0) = false
  /\ registry.run (registry.fetch examples.binance_newest_first "BTCUSDT" "1d" 1)
  = (Ok (Some [examples.candle4; examples.candle2]),
     [registry.CallSupports "binance" "BTCUSDT";
      registry.CallFetch "binance" "BTCUSDT" "1d" 1])
  /\ (Z.of_nat (length [examples.candle4; examples.candle2]) <=? 1) = false.
Proof. repeat split; vm_compute; reflexivity. Qed.

(** C7 (as amended). The orchestrator does not sort and does not
    reorder: the list it returns is strictly increasing in time whenever
    every upstream reply lists its bars strictly oldest first. *)
Theorem fetch_preserves_upstream_order (w : World) (symbol interval : string)
    (limit : Z) (cs : list Candle) (log : list registry.call) :
  upstreams_oldest_first w ->
  registry.run (registry.fetch w symbol interval limit) = (Ok (Some cs), log) ->
  oldest_first (time <$> cs).
Proof.
  unfold registry.run, registry.fetch. intros Hup H.
  apply walk_result_from_chain in H as (_ & p & Hp & _ & Hf).
  apply pick_instances in Hp as [id ->].
  eapply provider_result_ordered; eassumption.
Qed.

Lemma fetch_preserves_upstream_order_witness :
  upstreams_oldest_first examples.tiingo_answers
  /\ oldest_first (time <$> [examples.candle2; examples.candle4]).
Proof.
  assert (Hup : upstreams_oldest_first examples.tiingo_answers).
  { split; simpl.
    - intros ticker interval limit resp [= <-]. constructor.
    - discriminate.
    - intros ticker resample start key rows [= <-].
      vm_compute. repeat constructor.
    - discriminate.
    - discriminate. }
  split; [exact Hup |].
  apply (fetch_preserves_upstream_order examples.tiingo_answers "AAPL" "1d" 5
           [examples.candle2; examples.candle4]
           [registry.CallSupports "yfinance" "AAPL";
            registry.CallFetch "yfinance" "AAPL" "1d" 5;
            registry.CallSupports "tiingo" "AAPL";
            registry.CallFetch "tiingo" "AAPL" "1d" 5] Hup).
  vm_compute. reflexivity.
Defined.

(** Binance answering newest first is returned newest first. *)
Lemma fetch_returns_upstream_order :
  registry.run (registry.fetch examples.binance_newest_first "BTCUSDT" "1d" 5)
  = (Ok (Some [examples.candle4; examples.candle2]),
     [registry.CallSupports "binance" "BTCUSDT";
      registry.CallFetch "binance" "BTCUSDT" "1d" 5])
  /\ time <$> [examples.candle4; examples.candle2] = [1704326400; 1704153600]
  /\ ~ oldest_first (time <$> [examples.candle4; examples.candle2]).
Proof.
  split; [vm_compute; reflexivity |]. split; [reflexivity |].
  intros H. apply StronglySorted_inv in H as [_ H].
  apply Forall_cons in H as [H _]. simpl in H. lia.
Qed.

(* ===================================================================== *)
(** ** Every outcome of the walk                                         *)
(* ===================================================================== *)

Section Outcomes.

Variable w : World.
Variables symbol interval : string.
Variable limit : Z.

#[local] Abbreviation walk chain := (registry.walk w chain symbol interval limit).
#[local] Abbreviation passed_over := (yields_nothing w symbol interval limit).
#[local] Abbreviation calls := (calls_on symbol interval limit).
#[local] Abbreviation stops p res := (stops_at w symbol interval limit p res).

(** The walk passes over a prefix of the chain; then it has run out of
    providers, or it stops at the next one.  Its calls are those on the
    providers it reached, in the order of the chain. *)
Lemma walk_outcome (chain : list base.OHLCVProvider) :
  forall log res log',
    walk chain log = (res, log') ->
    exists pre rest,
      chain = pre ++ rest /\ Forall passed_over pre
      /\ log' = log ++ flat_map calls (pre ++ take 1 rest)
      /\ match rest with
         | [] => res = Ok None
         | p :: _ => stops p res
         end.
Proof.
  induction chain as [| p chain IH]; intros log res log' H.
  - injection H as <- <-. exists [], []. simpl. rewrite app_nil_r.
    repeat split. constructor.
  - rewrite walk_cons in H.
    assert (Hskip : passed_over p ->
              walk chain (log ++ calls p) = (res, log') ->
              exists pre rest,
                p :: chain = pre ++ rest /\ Forall passed_over pre
                /\ log' = log ++ flat_map calls (pre ++ take 1 rest)
                /\ match rest with
                   | [] => res = Ok None
                   | q :: _ => stops q res
                   end).
    { intros Hp Hw. destruct (IH _ _ _ Hw) as (pre & rest & -> & Hpre & -> & Hrest).
      exists (p :: pre), rest. split; [reflexivity |].
      split; [constructor; assumption |].
      split; [| assumption].
      rewrite <- app_comm_cons.
      change (flat_map calls (p :: (pre ++ take 1 rest)))
        with (calls p ++ flat_map calls (pre ++ take 1 rest)).
      rewrite app_assoc. reflexivity. }
    assert (Hstop : stops p res -> log' = log ++ calls p ->
              exists pre rest,
                p :: chain = pre ++ rest /\ Forall passed_over pre
                /\ log' = log ++ flat_map calls (pre ++ take 1 rest)
                /\ match rest with
                   | [] => res = Ok None
                   | q :: _ => stops q res
                   end).
    { intros Hp ->. exists [], (p :: chain). split; [reflexivity |].
      split; [constructor |]. split; [| assumption].
      simpl. rewrite app_nil_r. reflexivity. }
    destruct (base.supports p symbol) eqn:Hs.
    + destruct (base.fetch p w symbol interval limit) as [result | e] eqn:Hf.
      * destruct result as [[| c cs] |]; simpl in H.
        -- apply Hskip; [right; right; assumption | assumption].
        -- injection H as <- <-. apply Hstop; [| reflexivity].
           split; [assumption |]. split; [assumption |].
           left. exists (c :: cs). split; [reflexivity | discriminate].
        -- apply Hskip; [right; left; assumption | assumption].
      * injection H as <- <-. apply Hstop; [| reflexivity].
        split; [assumption |]. split; [assumption |]. right. exists e. reflexivity.
    + apply Hskip; [left; assumption | assumption].
Qed.

End Outcomes.

(** X1. Whatever the outcome, the calls that [fetch] makes are the calls
    on the first [k] providers of the chain, for some [k], in the order
    of the chain: [supports] once on each, and [fetch] once on those
    that support the symbol, right after their [supports].  No provider
    is called twice, none out of order, and none after the one at which
    the walk stops. *)
Theorem fetch_calls_follow_chain (w : World) (symbol interval : string) (limit : Z) :
  exists k : nat,
    (registry.run (registry.fetch w symbol interval limit)).2
    = flat_map (calls_on symbol interval limit) (take k (registry.pick symbol)).
Proof.
  unfold registry.run, registry.fetch.
  destruct (registry.walk w (registry.pick symbol) symbol interval limit [])
    as [res log'] eqn:H.
  apply walk_outcome in H as (pre & rest & Hpick & _ & -> & _).
  exists (length pre + length (take 1 rest))%nat. rewrite Hpick. simpl.
  rewrite take_app_add. f_equal. f_equal.
  destruct rest; reflexivity.
Qed.

(** X2. A list returned by [fetch] is the list that one provider of the
    chain returned, unchanged and non-empty; that provider supports the
    symbol, every provider before it in the chain was passed over, and
    its [fetch] is the last call made. *)
Theorem fetch_result_comes_from_provider (w : World) (symbol interval : string)
    (limit : Z) (cs : list Candle) (log : list registry.call) :
  registry.run (registry.fetch w symbol interval limit) = (Ok (Some cs), log) ->
  exists pre p post,
    registry.pick symbol = pre ++ p :: post
    /\ Forall (yields_nothing w symbol interval limit) pre
    /\ base.supports p symbol = true
    /\ base.fetch p w symbol interval limit = Ok (Some cs)
    /\ cs <> []
    /\ log = flat_map (calls_on symbol interval limit) pre
             ++ [registry.CallSupports (base.name p) symbol;
                 registry.CallFetch (base.name p) symbol interval limit].
Proof.
  unfold registry.run, registry.fetch. intros H.
  apply walk_outcome in H as (pre & rest & Hpick & Hpre & -> & Hrest).
  destruct rest as [| p post]; [discriminate |].
  destruct Hrest as (Hs & Hf & [(cs' & [= <-] & Hne) | (e & He)]); [| discriminate].
  exists pre, p, post. repeat split; try assumption.
  change (take 1 (p :: post)) with [p].
  rewrite flat_map_app. simpl. rewrite app_nil_r.
  unfold calls_on at 2. rewrite Hs. reflexivity.
Qed.

Lemma fetch_result_comes_from_provider_witness :
  exists pre p post,
    registry.pick "AAPL" = pre ++ p :: post
    /\ Forall (yields_nothing examples.tiingo_answers "AAPL" "1d" 5) pre
    /\ base.supports p "AAPL" = true
    /\ base.fetch p examples.tiingo_answers "AAPL" "1d" 5
       = Ok (Some [examples.candle2; examples.candle4])
    /\ [examples.candle2; examples.candle4] <> []
    /\ [registry.CallSupports "yfinance" "AAPL";
        registry.CallFetch "yfinance" "AAPL" "1d" 5;
        registry.CallSupports "tiingo" "AAPL";
        registry.CallFetch "tiingo" "AAPL" "1d" 5]
       = flat_map (calls_on "AAPL" "1d" 5) pre
         ++ [registry.CallSupports (base.name p) "AAPL";
             registry.CallFetch (base.name p) "AAPL" "1d" 5].
Proof.
  apply (fetch_result_comes_from_provider examples.tiingo_answers "AAPL" "1d" 5).
  vm_compute. reflexivity.
Defined.

(** X3. An exception raised by [fetch] is the exception that the [fetch]
    of one provider of the chain raised: the registry raises none of its
    own.  That provider supports the symbol, every provider before it
    was passed over, and its [fetch] is the last call made. *)
Theorem fetch_error_comes_from_provider (w : World) (symbol interval : string)
    (limit : Z) (e : exn) (log : list registry.call) :
  registry.run (registry.fetch w symbol interval limit) = (Raise e, log) ->
  exists pre p post,
    registry.pick symbol = pre ++ p :: post
    /\ Forall (yields_nothing w symbol interval limit) pre
    /\ base.supports p symbol = true
    /\ base.fetch p w symbol interval limit = Raise e
    /\ log = flat_map (calls_on symbol interval limit) pre
             ++ [registry.CallSupports (base.name p) symbol;
                 registry.CallFetch (base.name p) symbol interval limit].
Proof.
  unfold registry.run, registry.fetch. intros H.
  apply walk_outcome in H as (pre & rest & Hpick & Hpre & -> & Hrest).
  destruct rest as [| p post]; [discriminate |].
  destruct Hrest as (Hs & Hf & _).
  exists pre, p, post. repeat split; try assumption.
  change (take 1 (p :: post)) with [p].
  rewrite flat_map_app. simpl. rewrite app_nil_r.
  unfold calls_on at 2. rewrite Hs. reflexivity.
Qed.

Lemma fetch_error_comes_from_provider_witness :
  exists pre p post,
    registry.pick "AAPL" = pre ++ p :: post
    /\ Forall (yields_nothing examples.no_keys "AAPL" "1d" 5) pre
    /\ base.supports p "AAPL" = true
    /\ base.fetch p examples.no_keys "AAPL" "1d" 5 = Raise RuntimeError
    /\ [registry.CallSupports "yfinance" "AAPL";
        registry.CallFetch "yfinance" "AAPL" "1d" 5;
        registry.CallSupports "tiingo" "AAPL";
        registry.CallFetch "tiingo" "AAPL" "1d" 5]
       = flat_map (calls_on "AAPL" "1d" 5) pre
         ++ [registry.CallSupports (base.name p) "AAPL";
             registry.CallFetch (base.name p) "AAPL" "1d" 5].
Proof.
  apply (fetch_error_comes_from_provider examples.no_keys "AAPL" "1d" 5).
  vm_compute. reflexivity.
Defined.

(** X4. [fetch] returns [None] exactly when every provider of the chain
    is passed over: each one refuses the symbol or returns [None] or an
    empty list. *)
Theorem fetch_None_iff_chain_yields_nothing (w : World) (symbol interval : string)
    (limit : Z) :
  (registry.run (registry.fetch w symbol interval limit)).1 = Ok None
  <-> Forall (yields_nothing w symbol interval limit) (registry.pick symbol).
Proof.
  unfold registry.run, registry.fetch. split.
  - destruct (registry.walk w (registry.pick symbol) symbol interval limit [])
      as [res log'] eqn:H. simpl. intros ->.
    apply walk_outcome in H as (pre & rest & Hpick & Hpre & _ & Hrest).
    destruct rest as [| p post].
    + rewrite Hpick, app_nil_r. assumption.
    + destruct Hrest as (_ & _ & [(cs & Hcs & _) | (e & He)]); discriminate.
  - intros Hall.
    rewrite <- (app_nil_r (registry.pick symbol)).
    rewrite (walk_passes_over w symbol interval limit _ [] Hall). reflexivity.
Qed.

(* ===================================================================== *)
(** ** Alphabets of the patterns                                         *)
(* ===================================================================== *)

Section Alphabets.

Import re.

Lemma append_empty_r (s : string) : s +:+ EmptyString = s.
Proof.
  induction s as [| a s IH]; [reflexivity |].
  change (String a s +:+ EmptyString) with (String a (s +:+ EmptyString)).
  rewrite IH. reflexivity.
Qed.

Lemma append_assoc (s t u : string) : (s +:+ t) +:+ u = s +:+ (t +:+ u).
Proof.
  induction s as [| a s IH]; [reflexivity |].
  change (String a ((s +:+ t) +:+ u) = String a (s +:+ (t +:+ u))).
  rewrite IH. reflexivity.
Qed.

Lemma all_chars_app (P : ascii -> bool) (s t : string) :
  all_chars P (s +:+ t) = all_chars P s && all_chars P t.
Proof.
  induction s as [| a s IH]; [reflexivity |].
  change (String a s +:+ t) with (String a (s +:+ t)). simpl.
  rewrite IH, andb_assoc. reflexivity.
Qed.

Lemma all_chars_impl (P Q : ascii -> bool) (s : string) :
  (forall c, P c = true -> Q c = true) ->
  all_chars P s = true -> all_chars Q s = true.
Proof.
  intros HPQ. induction s as [| a s IH]; simpl; [reflexivity |].
  intros [Ha Hs]%andb_true_iff. rewrite (HPQ _ Ha), (IH Hs). reflexivity.
Qed.

(** A string of a pattern is made of characters of the pattern. *)
Lemma within_lang (P : ascii -> bool) (r : regex) (s : string) :
  lang r s -> within P r = true -> all_chars P s = true.
Proof.
  induction 1 as [| c | lo hi c Hc | r1 r2 s1 s2 _ IH1 _ IH2 | r1 r2 s _ IH
                  | r1 r2 s _ IH | r | r s1 s2 _ IH1 _ IH2]; intros Hw.
  - reflexivity.
  - simpl in *. rewrite Hw. reflexivity.
  - change (forallb (fun n => implb (in_range lo hi (ascii_of_nat n))
                                    (P (ascii_of_nat n))) (seq 0 256) = true) in Hw.
    rewrite forallb_forall in Hw.
    assert (Hin : In (nat_of_ascii c) (seq 0 256)).
    { apply in_seq. pose proof (nat_ascii_bounded c). lia. }
    specialize (Hw _ Hin). rewrite ascii_nat_embedding, Hc in Hw.
    change (P c = true) in Hw. change (P c && true = true).
    rewrite Hw. reflexivity.
  - cbn [within] in Hw. apply andb_true_iff in Hw as [H1 H2].
    rewrite all_chars_app, IH1, IH2 by assumption. reflexivity.
  - cbn [within] in Hw. apply andb_true_iff in Hw as [H1 _]. auto.
  - cbn [within] in Hw. apply andb_true_iff in Hw as [_ H2]. auto.
  - reflexivity.
  - rewrite all_chars_app, IH1, IH2 by assumption. reflexivity.
Qed.

(** A string matches an anchored pattern exactly when it is a string of
    the body, or such a string followed by one line feed. *)
Lemma compile_match_iff (body : regex) (s : string) :
  match_ (compile body) s = true
  <-> exists x, lang body x /\ (s = x \/ s = x +:+ nl).
Proof.
  unfold match_, compile. rewrite accepts_lang. split.
  - intros H. inversion H as [| | | r1 r2 s1 s2 H1 H2 | | | |]; subst.
    exists s1. split; [assumption |].
    inversion H2 as [| | | | r1 r2 t Ht | r1 r2 t Ht | |]; subst.
    + inversion Ht; subst. left. apply append_empty_r.
    + inversion Ht; subst. right. reflexivity.
  - intros (x & Hx & [-> | ->]).
    + rewrite <- (append_empty_r x). constructor; [assumption |].
      apply lang_alt_l. constructor.
    + constructor; [assumption |]. apply lang_alt_r. constructor.
Qed.

(** A pattern with a smaller body matches fewer strings. *)
Lemma compile_mono (body1 body2 : regex) (s : string) :
  (forall x, lang body1 x -> lang body2 x) ->
  match_ (compile body1) s = true -> match_ (compile body2) s = true.
Proof.
  intros Hsub. rewrite !compile_match_iff.
  intros (x & Hx & Hs). exists x. auto.
Qed.

Lemma symbol_char_kept (c : ascii) : symbol_char c = true -> kept_char c = true.
Proof. destruct c as [[] [] [] [] [] [] [] []]; vm_compute; congruence. Qed.

Lemma symbol_char_not_newline (c : ascii) :
  symbol_char c = true -> Ascii.eqb c newline = false.
Proof. destruct c as [[] [] [] [] [] [] [] []]; vm_compute; congruence. Qed.

Lemma upper_ascii_not_newline (c : ascii) :
  Ascii.eqb (upper_ascii c) newline = Ascii.eqb c newline.
Proof. destruct c as [[] [] [] [] [] [] [] []]; vm_compute; reflexivity. Qed.

End Alphabets.

(* ===================================================================== *)
(** ** Normalised symbols, supported symbols and routes                  *)
(* ===================================================================== *)

Section Supported.

Import re.

Lemma remove_char_absent (c : ascii) (s : string) :
  all_chars (fun a => negb (Ascii.eqb a c)) s = true -> remove_char c s = s.
Proof.
  induction s as [| a s IH]; simpl; [reflexivity |].
  intros [Ha Hs]%andb_true_iff. apply negb_true_iff in Ha.
  rewrite Ha, (IH Hs). reflexivity.
Qed.

Lemma rstrip_no_space (s : string) :
  all_chars (fun a => negb (is_space a)) s = true -> rstrip s = s.
Proof.
  induction s as [| a s IH]; simpl; [reflexivity |].
  intros [Ha Hs]%andb_true_iff. apply negb_true_iff in Ha.
  rewrite (IH Hs), Ha. destruct s; reflexivity.
Qed.

Lemma rstrip_line_feed (s : string) :
  all_chars (fun a => negb (is_space a)) s = true -> rstrip (s +:+ nl) = s.
Proof.
  induction s as [| a s IH]; [reflexivity |].
  change (String a s +:+ nl) with (String a (s +:+ nl)). simpl.
  intros [Ha Hs]%andb_true_iff. apply negb_true_iff in Ha.
  rewrite (IH Hs), Ha. destruct s; reflexivity.
Qed.

Lemma strip_no_space (s : string) :
  all_chars (fun a => negb (is_space a)) s = true ->
  strip s = s /\ strip (s +:+ nl) = s.
Proof.
  intros Hs. unfold strip. destruct s as [| a s].
  - split; reflexivity.
  - pose proof Hs as Hs'. simpl in Hs'.
    apply andb_true_iff in Hs' as [Ha _]. apply negb_true_iff in Ha.
    change (String a s +:+ nl) with (String a (s +:+ nl)).
    simpl lstrip. rewrite Ha.
    split; [exact (rstrip_no_space _ Hs) | exact (rstrip_line_feed (String a s) Hs)].
Qed.

(** [_normalise] returns a string of kept characters as it stands, and
    drops a line feed after it. *)
Lemma normalise_kept (symbol x : string) :
  all_chars kept_char x = true ->
  upper symbol = x \/ upper symbol = x +:+ nl ->
  binance._normalise symbol = x.
Proof.
  intros Hx Hup. unfold binance._normalise.
  assert (Hslash : all_chars (fun a => negb (Ascii.eqb a "/")) x = true).
  { revert Hx. apply all_chars_impl. unfold kept_char. intros c.
    rewrite !andb_true_iff. tauto. }
  assert (Hhyphen : all_chars (fun a => negb (Ascii.eqb a "-")) x = true).
  { revert Hx. apply all_chars_impl. unfold kept_char. intros c.
    rewrite !andb_true_iff. tauto. }
  assert (Hspace : all_chars (fun a => negb (is_space a)) x = true).
  { revert Hx. apply all_chars_impl. unfold kept_char. intros c.
    rewrite !andb_true_iff. tauto. }
  destruct (strip_no_space x Hspace) as [Hstrip Hstrip_nl].
  destruct Hup as [-> | ->].
  - rewrite (remove_char_absent "/" x Hslash), (remove_char_absent "-" x Hhyphen).
    exact Hstrip.
  - rewrite (remove_char_absent "/" (x +:+ nl)), (remove_char_absent "-" (x +:+ nl));
      [exact Hstrip_nl | |].
    + rewrite all_chars_app, Hhyphen. reflexivity.
    + rewrite all_chars_app, Hslash. reflexivity.
Qed.

(** A match of an anchored pattern over symbol characters: the symbol
    characters that matched, and what else the pattern matches then. *)
Lemma symbol_match (body : regex) (s : string) :
  within symbol_char body = true ->
  match_ (compile body) s = true ->
  exists x,
    lang body x /\ all_chars symbol_char x = true /\ (s = x \/ s = x +:+ nl).
Proof.
  intros Hw (x & Hx & Hs)%compile_match_iff.
  exists x. split; [assumption |]. split; [| assumption].
  apply (within_lang _ _ _ Hx Hw).
Qed.

Lemma symbol_string_lang (body : regex) (x : string) :
  within symbol_char body = true ->
  all_chars symbol_char x = true ->
  match_ (compile body) x = true -> lang body x.
Proof.
  intros Hw Hx (y & Hy & [-> | ->])%compile_match_iff; [assumption |].
  rewrite all_chars_app in Hx. apply andb_true_iff in Hx as [_ Hx]. discriminate.
Qed.

(** What Binance makes of a symbol that matches a pattern of the registry
    is the string of symbol characters that matched. *)
Lemma normalise_symbol_match (body : regex) (symbol : string) :
  within symbol_char body = true ->
  match_ (compile body) (upper symbol) = true ->
  lang body (binance._normalise symbol)
  /\ all_chars symbol_char (binance._normalise symbol) = true
  /\ (upper symbol = binance._normalise symbol
      \/ upper symbol = binance._normalise symbol +:+ nl).
Proof.
  intros Hw (x & Hx & Hsym & Hup)%symbol_match; [| assumption].
  assert (Hn : binance._normalise symbol = x).
  { apply normalise_kept; [| assumption].
    revert Hsym. apply all_chars_impl, symbol_char_kept. }
  rewrite Hn. auto.
Qed.

(** If Binance supports a symbol that matches a pattern of the registry,
    the symbol matches the crypto pattern too. *)
Lemma supported_symbol_is_crypto (body : regex) (symbol : string) :
  within symbol_char body = true ->
  match_ (compile body) (upper symbol) = true ->
  binance.supports symbol = true ->
  match_ registry._CRYPTO_RE (upper symbol) = true.
Proof.
  intros Hw Hm Hs.
  destruct (normalise_symbol_match body symbol Hw Hm) as (_ & Hsym & Hup).
  unfold binance.supports in Hs.
  apply symbol_string_lang in Hs; [| reflexivity | assumption].
  apply compile_match_iff. eauto.
Qed.

Lemma classify_cases (symbol : string) :
  let hit := fun pattern => match_ pattern (upper symbol) in
  match classify symbol with
  | Crypto => hit registry._CRYPTO_RE = true
  | Stock => hit registry._CRYPTO_RE = false /\ hit registry._STOCK_RE = true
  | InternationalStock =>
      hit registry._CRYPTO_RE = false /\ hit registry._STOCK_RE = false
      /\ hit registry._INTL_STOCK_RE = true
  | Forex =>
      hit registry._CRYPTO_RE = false /\ hit registry._STOCK_RE = false
      /\ hit registry._INTL_STOCK_RE = false /\ hit registry._FOREX_RE = true
  | Unknown =>
      hit registry._CRYPTO_RE = false /\ hit registry._STOCK_RE = false
      /\ hit registry._INTL_STOCK_RE = false /\ hit registry._FOREX_RE = false
  end.
Proof.
  unfold classify, patterns. simpl.
  destruct (match_ registry._CRYPTO_RE (upper symbol)); [reflexivity |].
  destruct (match_ registry._STOCK_RE (upper symbol)); [auto |].
  destruct (match_ registry._INTL_STOCK_RE (upper symbol)); [auto |].
  destruct (match_ registry._FOREX_RE (upper symbol)); auto.
Qed.

(** The stock pattern of Tiingo is one branch of that of the registry. *)
Lemma tiingo_stock_is_stock (s : string) :
  match_ tiingo._STOCK_RE s = true -> match_ registry._STOCK_RE s = true.
Proof. apply compile_mono. intros x Hx. apply lang_alt_r. assumption. Qed.

End Supported.

(** [pick] in terms of the class of the symbol. *)
Lemma pick_chain_of_class (symbol : string) :
  registry.pick symbol = chain (classify symbol).
Proof.
  unfold classify, registry.pick, patterns, chain. simpl.
  repeat match goal with
         | |- context [if ?b then _ else _] => destruct b
         end; reflexivity.
Qed.

Section Routes.

Import re.

(** The bodies of the four patterns of the registry hold symbol
    characters only. *)
Lemma crypto_body_symbols :
  exists body, registry._CRYPTO_RE = compile body /\ within symbol_char body = true.
Proof. eexists. split; reflexivity. Qed.

Lemma stock_body_symbols :
  exists body, registry._STOCK_RE = compile body /\ within symbol_char body = true.
Proof. eexists. split; reflexivity. Qed.

Lemma intl_body_symbols :
  exists body, registry._INTL_STOCK_RE = compile body /\ within symbol_char body = true.
Proof. eexists. split; reflexivity. Qed.

Lemma forex_body_symbols :
  exists body, registry._FOREX_RE = compile body /\ within symbol_char body = true.
Proof. eexists. split; reflexivity. Qed.

(** X5. A symbol of class Unknown is refused by yfinance, Tiingo and
    Finnhub, whose patterns are among those that the registry has just
    tried in vain.  Of the four providers that [fetch] then walks, only
    Binance can answer: the result is the non-empty list or the
    exception of Binance when it supports the symbol, and [None]
    otherwise. *)
Theorem unknown_symbols_reach_only_binance (w : World) (symbol interval : string)
    (limit : Z) :
  classify symbol = Unknown ->
  yfinance.supports symbol = false
  /\ tiingo.supports symbol = false
  /\ finnhub.supports symbol = false
  /\ (registry.run (registry.fetch w symbol interval limit)).1
     = (if binance.supports symbol
        then match binance.fetch w symbol interval limit with
             | Ok (Some (c :: cs)) => Ok (Some (c :: cs))
             | Ok _ => Ok None
             | Raise e => Raise e
             end
        else Ok None).
Proof.
  intros Hclass. pose proof (classify_cases symbol) as Hcases.
  rewrite Hclass in Hcases. simpl in Hcases.
  destruct Hcases as (Hc & Hs & Hi & Hf).
  assert (Hy : yfinance.supports symbol = false).
  { unfold yfinance.supports.
    change yfinance._CRYPTO_RE with registry._CRYPTO_RE.
    change yfinance._FOREX_RE with registry._FOREX_RE.
    change yfinance._STOCK_RE with registry._STOCK_RE.
    change yfinance._INTL_STOCK_RE with registry._INTL_STOCK_RE.
    rewrite Hc, Hs, Hi, Hf. reflexivity. }
  assert (Ht : tiingo.supports symbol = false).
  { unfold tiingo.supports.
    change tiingo._INTL_STOCK_RE with registry._INTL_STOCK_RE. rewrite Hi.
    destruct (match_ tiingo._STOCK_RE (upper symbol)) eqn:Hts; [| reflexivity].
    apply tiingo_stock_is_stock in Hts. congruence. }
  assert (Hfh : finnhub.supports symbol = false).
  { unfold finnhub.supports.
    change finnhub._STOCK_RE with registry._STOCK_RE.
    change finnhub._INTL_STOCK_RE with registry._INTL_STOCK_RE.
    change finnhub._FOREX_RE with registry._FOREX_RE.
    rewrite Hs, Hi, Hf. reflexivity. }
  repeat (split; [assumption |]).
  unfold registry.run, registry.fetch, registry.pick.
  rewrite Hc, Hs, Hi, Hf.
  rewrite !walk_cons. unfold registry._get_binance, registry._get_yfinance,
    registry._get_tiingo, registry._get_finnhub. simpl base.supports.
  rewrite Hy, Ht, Hfh.
  destruct (binance.supports symbol); [| reflexivity].
  simpl base.fetch.
  destruct (binance.fetch w symbol interval limit) as [[[| c cs] |] | e]; reflexivity.
Qed.

Lemma unknown_symbols_reach_only_binance_witness :
  classify "BTC/USDT" = Unknown
  /\ binance.supports "BTC/USDT" = true
  /\ yfinance.supports "BTC/USDT" = false
  /\ (registry.run (registry.fetch examples.binance_newest_first "BTC/USDT" "1d" 5)).1
     = Ok (Some [examples.candle4; examples.candle2]).
Proof.
  split; [reflexivity |]. split; [reflexivity |].
  destruct (unknown_symbols_reach_only_binance examples.binance_newest_first
              "BTC/USDT" "1d" 5 eq_refl) as (Hy & _ & _ & Hrun).
  split; [exact Hy |]. rewrite Hrun. vm_compute. reflexivity.
Defined.

(** X6. For a symbol of any other class, every provider of the chain
    supports the symbol, Tiingo apart: the walk never passes over the
    primary provider, nor over yfinance or Finnhub, without a call to
    its [fetch]. *)
Theorem known_symbols_are_supported_by_their_chain (symbol : string) :
  classify symbol <> Unknown ->
  Forall (fun p => base.name p = "tiingo" \/ base.supports p symbol = true)
         (registry.pick symbol).
Proof.
  intros Hclass. pose proof (classify_cases symbol) as Hcases.
  assert (Hy : yfinance.supports symbol = true).
  { unfold yfinance.supports.
    change yfinance._CRYPTO_RE with registry._CRYPTO_RE.
    change yfinance._FOREX_RE with registry._FOREX_RE.
    change yfinance._STOCK_RE with registry._STOCK_RE.
    change yfinance._INTL_STOCK_RE with registry._INTL_STOCK_RE.
    destruct (classify symbol); simpl in Hcases;
      [| | | | congruence];
      repeat match goal with H : _ /\ _ |- _ => destruct H end;
      repeat match goal with H : match_ _ _ = _ |- _ => rewrite H end;
      repeat match goal with
             | |- context [match_ ?r ?s] => destruct (match_ r s)
             end;
      reflexivity. }
  assert (Hfh : classify symbol <> Crypto -> finnhub.supports symbol = true).
  { intros Hnc. unfold finnhub.supports.
    change finnhub._STOCK_RE with registry._STOCK_RE.
    change finnhub._INTL_STOCK_RE with registry._INTL_STOCK_RE.
    change finnhub._FOREX_RE with registry._FOREX_RE.
    destruct (classify symbol); simpl in Hcases; try congruence;
      repeat match goal with H : _ /\ _ |- _ => destruct H end;
      repeat match goal with H : match_ _ _ = _ |- _ => rewrite H end;
      repeat match goal with
             | |- context [match_ ?r ?s] => destruct (match_ r s)
             end;
      reflexivity. }
  rewrite pick_chain_of_class.
  destruct (classify symbol) eqn:Hcl; simpl in Hcases; [| | | | congruence].
  - assert (Hb : binance.supports symbol = true).
    { destruct crypto_body_symbols as (body & Hbody & Hw).
      rewrite Hbody in Hcases.
      destruct (normalise_symbol_match body symbol Hw Hcases) as (Hlang & _ & _).
      unfold binance.supports. change binance._CRYPTO_RE with registry._CRYPTO_RE.
      rewrite Hbody. apply compile_match_iff. eauto. }
    simpl. repeat (apply Forall_cons_2; [right; assumption |]). apply Forall_nil_2.
  - specialize (Hfh ltac:(discriminate)). simpl.
    apply Forall_cons_2; [right; assumption |].
    apply Forall_cons_2; [left; reflexivity |].
    apply Forall_cons_2; [right; assumption |]. apply Forall_nil_2.
  - specialize (Hfh ltac:(discriminate)). simpl.
    repeat (apply Forall_cons_2; [right; assumption |]). apply Forall_nil_2.
  - specialize (Hfh ltac:(discriminate)). simpl.
    repeat (apply Forall_cons_2; [right; assumption |]). apply Forall_nil_2.
Qed.

Lemma known_symbols_are_supported_by_their_chain_witness :
  classify "btcusdt" <> Unknown
  /\ Forall (fun p => base.name p = "tiingo" \/ base.supports p "btcusdt" = true)
            (registry.pick "btcusdt").
Proof.
  assert (H : classify "btcusdt" <> Unknown) by (vm_compute; discriminate).
  split; [exact H |].
  exact (known_symbols_are_supported_by_their_chain "btcusdt" H).
Defined.

(** X7. A symbol that Binance supports is always routed to Binance
    first, whatever [_normalise] had to remove from it. *)
Theorem binance_supported_symbol_is_routed_to_binance (symbol : string) :
  binance.supports symbol = true ->
  head (registry.pick symbol) = Some binance.BinanceProvider.
Proof.
  intros Hb. pose proof (classify_cases symbol) as Hcases.
  rewrite pick_chain_of_class.
  destruct (classify symbol); simpl in Hcases; try reflexivity.
  - destruct Hcases as (Hc & Hs).
    destruct stock_body_symbols as (body & Hbody & Hw). rewrite Hbody in Hs.
    rewrite (supported_symbol_is_crypto body symbol Hw Hs Hb) in Hc. discriminate.
  - destruct Hcases as (Hc & _ & Hi).
    destruct intl_body_symbols as (body & Hbody & Hw). rewrite Hbody in Hi.
    rewrite (supported_symbol_is_crypto body symbol Hw Hi Hb) in Hc. discriminate.
  - destruct Hcases as (Hc & _ & _ & Hf).
    destruct forex_body_symbols as (body & Hbody & Hw). rewrite Hbody in Hf.
    rewrite (supported_symbol_is_crypto body symbol Hw Hf Hb) in Hc. discriminate.
Qed.

Lemma binance_supported_symbol_is_routed_to_binance_witness :
  binance.supports " eth-btc " = true
  /\ head (registry.pick " eth-btc ") = Some binance.BinanceProvider.
Proof.
  assert (H : binance.supports " eth-btc " = true) by reflexivity.
  split; [exact H |].
  exact (binance_supported_symbol_is_routed_to_binance " eth-btc " H).
Defined.

(** X8. The symbols that Tiingo supports are supported by Finnhub, and
    those that Finnhub supports are supported by yfinance. *)
Theorem supports_are_nested (symbol : string) :
  (tiingo.supports symbol = true -> finnhub.supports symbol = true)
  /\ (finnhub.supports symbol = true -> yfinance.supports symbol = true).
Proof.
  unfold tiingo.supports, finnhub.supports, yfinance.supports.
  change finnhub._STOCK_RE with registry._STOCK_RE.
  change yfinance._STOCK_RE with registry._STOCK_RE.
  change tiingo._INTL_STOCK_RE with registry._INTL_STOCK_RE.
  change finnhub._INTL_STOCK_RE with registry._INTL_STOCK_RE.
  change yfinance._INTL_STOCK_RE with registry._INTL_STOCK_RE.
  change finnhub._FOREX_RE with registry._FOREX_RE.
  change yfinance._FOREX_RE with registry._FOREX_RE.
  split.
  - intros [H | H]%orb_true_iff.
    + rewrite (tiingo_stock_is_stock _ H). reflexivity.
    + rewrite H, orb_true_r. reflexivity.
  - intros [[H | H]%orb_true_iff | H]%orb_true_iff; rewrite H;
      rewrite ?orb_true_r; reflexivity.
Qed.

Lemma supports_are_nested_witness :
  tiingo.supports "WM.TO" = true
  /\ finnhub.supports "WM.TO" = true
  /\ yfinance.supports "WM.TO" = true.
Proof.
  assert (Ht : tiingo.supports "WM.TO" = true) by reflexivity.
  pose proof (proj1 (supports_are_nested "WM.TO") Ht) as Hf.
  pose proof (proj2 (supports_are_nested "WM.TO") Hf) as Hy.
  auto.
Defined.

End Routes.

Section LineFeed.

Import re.

Lemma append_line_feed_inj (s t : string) : s +:+ nl = t +:+ nl -> s = t.
Proof.
  revert t. induction s as [| a s IH]; intros [| b t] H.
  - reflexivity.
  - change (nl = String b (t +:+ nl)) in H. injection H as _ H.
    destruct t; discriminate.
  - change (String a (s +:+ nl) = nl) in H. injection H as _ H.
    destruct s; discriminate.
  - change (String a (s +:+ nl) = String b (t +:+ nl)) in H.
    injection H as -> H. rewrite (IH _ H). reflexivity.
Qed.

Lemma upper_app (s t : string) : upper (s +:+ t) = upper s +:+ upper t.
Proof.
  induction s as [| a s IH]; [reflexivity |].
  change (upper (String a (s +:+ t)) = String (upper_ascii a) (upper s +:+ upper t)).
  simpl. rewrite IH. reflexivity.
Qed.

Lemma upper_no_line_feed (s : string) :
  all_chars (fun c => negb (Ascii.eqb c newline)) (upper s)
  = all_chars (fun c => negb (Ascii.eqb c newline)) s.
Proof.
  induction s as [| a s IH]; simpl; [reflexivity |].
  rewrite upper_ascii_not_newline, IH. reflexivity.
Qed.

(** An anchored pattern over symbol characters does not tell a string
    without line feed from the same string followed by one. *)
Lemma match_line_feed (body : regex) (s : string) :
  within symbol_char body = true ->
  all_chars (fun c => negb (Ascii.eqb c newline)) s = true ->
  match_ (compile body) (s +:+ nl) = match_ (compile body) s.
Proof.
  intros Hw Hs. apply eq_true_iff_eq. split.
  - intros (x & Hx & Hsym & Hcase)%symbol_match; [| assumption].
    apply compile_match_iff. exists x. split; [assumption |].
    destruct Hcase as [Heq | Heq].
    + rewrite <- Heq, all_chars_app in Hsym.
      apply andb_true_iff in Hsym as [_ Hsym]. discriminate.
    + left. apply append_line_feed_inj. assumption.
  - intros (x & Hx & [-> | ->])%compile_match_iff.
    + apply compile_match_iff. eauto.
    + rewrite all_chars_app in Hs.
      apply andb_true_iff in Hs as [_ Hs]. discriminate.
Qed.

(** X9. [$] also matches before a line feed that ends the string, so
    [pick] routes a symbol followed by one line feed as it routes the
    symbol itself. *)
Theorem pick_ignores_a_final_line_feed (symbol : string) :
  all_chars (fun c => negb (Ascii.eqb c newline)) symbol = true ->
  registry.pick (symbol +:+ nl) = registry.pick symbol.
Proof.
  intros Hs. rewrite <- upper_no_line_feed in Hs.
  unfold registry.pick. rewrite upper_app. change (upper nl) with nl.
  destruct crypto_body_symbols as (cb & -> & Hcb).
  destruct stock_body_symbols as (sb & -> & Hsb).
  destruct intl_body_symbols as (ib & -> & Hib).
  destruct forex_body_symbols as (fb & -> & Hfb).
  rewrite !match_line_feed by assumption. reflexivity.
Qed.

Lemma pick_ignores_a_final_line_feed_witness :
  base.name <$> registry.pick ("EURUSD" +:+ nl) = ["yfinance"; "finnhub"]
  /\ registry.pick ("EURUSD" +:+ nl) = registry.pick "EURUSD".
Proof.
  split; [reflexivity |].
  apply (pick_ignores_a_final_line_feed "EURUSD"). reflexivity.
Defined.

End LineFeed.

(* ===================================================================== *)
(** ** [_normalise]                                                      *)
(* ===================================================================== *)

Section Normalise.

Lemma upper_ascii_idem (c : ascii) : upper_ascii (upper_ascii c) = upper_ascii c.
Proof. destruct c as [[] [] [] [] [] [] [] []]; vm_compute; reflexivity. Qed.

Lemma upper_ascii_space (c : ascii) : is_space (upper_ascii c) = is_space c.
Proof. destruct c as [[] [] [] [] [] [] [] []]; vm_compute; reflexivity. Qed.

Lemma upper_ascii_slash (c : ascii) : Ascii.eqb (upper_ascii c) "/" = Ascii.eqb c "/".
Proof. destruct c as [[] [] [] [] [] [] [] []]; vm_compute; reflexivity. Qed.

Lemma upper_ascii_hyphen (c : ascii) : Ascii.eqb (upper_ascii c) "-" = Ascii.eqb c "-".
Proof. destruct c as [[] [] [] [] [] [] [] []]; vm_compute; reflexivity. Qed.

Lemma upper_idem (s : string) : upper (upper s) = upper s.
Proof.
  induction s as [| a s IH]; simpl; [reflexivity |].
  rewrite upper_ascii_idem, IH. reflexivity.
Qed.

Lemma upper_remove_char (c : ascii) (s : string) :
  (forall a, Ascii.eqb (upper_ascii a) c = Ascii.eqb a c) ->
  upper (remove_char c s) = remove_char c (upper s).
Proof.
  intros Hc. induction s as [| a s IH]; simpl; [reflexivity |].
  rewrite Hc. destruct (Ascii.eqb a c); simpl; rewrite IH; reflexivity.
Qed.

Lemma upper_lstrip (s : string) : upper (lstrip s) = lstrip (upper s).
Proof.
  induction s as [| a s IH]; simpl; [reflexivity |].
  rewrite upper_ascii_space. destruct (is_space a); [assumption | reflexivity].
Qed.

Lemma upper_rstrip (s : string) : upper (rstrip s) = rstrip (upper s).
Proof.
  induction s as [| a s IH]; simpl; [reflexivity |].
  rewrite <- IH, upper_ascii_space.
  destruct (rstrip s); simpl; [destruct (is_space a) |]; reflexivity.
Qed.

Lemma all_chars_remove_char (P : ascii -> bool) (c : ascii) (s : string) :
  all_chars P s = true -> all_chars P (remove_char c s) = true.
Proof.
  induction s as [| a s IH]; simpl; [reflexivity |].
  intros [Ha Hs]%andb_true_iff.
  destruct (Ascii.eqb a c); simpl; rewrite ?Ha; auto.
Qed.

Lemma all_chars_lstrip (P : ascii -> bool) (s : string) :
  all_chars P s = true -> all_chars P (lstrip s) = true.
Proof.
  induction s as [| a s IH]; simpl; [reflexivity |].
  intros H. destruct (is_space a); [| assumption].
  apply andb_true_iff in H as [_ Hs]. auto.
Qed.

Lemma all_chars_rstrip (P : ascii -> bool) (s : string) :
  all_chars P s = true -> all_chars P (rstrip s) = true.
Proof.
  induction s as [| a s IH]; simpl; [reflexivity |].
  intros [Ha Hs]%andb_true_iff. specialize (IH Hs).
  destruct (rstrip s); simpl; [destruct (is_space a); simpl |];
    rewrite ?Ha; auto.
Qed.

Lemma remove_char_removes (c : ascii) (s : string) :
  all_chars (fun a => negb (Ascii.eqb a c)) (remove_char c s) = true.
Proof.
  induction s as [| a s IH]; simpl; [reflexivity |].
  destruct (Ascii.eqb a c) eqn:Ha; simpl; rewrite ?Ha; assumption.
Qed.

Lemma rstrip_idem (s : string) : rstrip (rstrip s) = rstrip s.
Proof.
  induction s as [| a s IH]; simpl; [reflexivity |].
  destruct (rstrip s) as [| b r] eqn:Hr.
  - destruct (is_space a) eqn:Ha; simpl; [reflexivity |]. rewrite Ha. reflexivity.
  - change (rstrip (String a (String b r))) with
      (match rstrip (String b r) with
       | EmptyString => if is_space a then EmptyString else String a EmptyString
       | t => String a t
       end).
    rewrite IH. reflexivity.
Qed.

Lemma lstrip_starts_clean (s : string) : starts_clean (lstrip s) = true.
Proof.
  induction s as [| a s IH]; simpl; [reflexivity |].
  destruct (is_space a) eqn:Ha; [assumption |]. simpl. rewrite Ha. reflexivity.
Qed.

Lemma rstrip_starts_clean (s : string) :
  starts_clean s = true -> starts_clean (rstrip s) = true.
Proof.
  destruct s as [| a s]; simpl; [reflexivity |].
  intros Ha. apply negb_true_iff in Ha.
  destruct (rstrip s); simpl; rewrite Ha; simpl; rewrite ?Ha; reflexivity.
Qed.

Lemma lstrip_clean_start (s : string) : starts_clean s = true -> lstrip s = s.
Proof.
  destruct s as [| a s]; simpl; [reflexivity |].
  intros Ha. apply negb_true_iff in Ha. rewrite Ha. reflexivity.
Qed.

Lemma strip_idem (s : string) : strip (strip s) = strip s.
Proof.
  unfold strip.
  rewrite (lstrip_clean_start (rstrip (lstrip s)))
    by apply rstrip_starts_clean, lstrip_starts_clean.
  apply rstrip_idem.
Qed.

(** X10. [_normalise] is idempotent, so Binance supports a symbol
    exactly when it supports its normal form. *)
Theorem normalise_is_idempotent (symbol : string) :
  binance._normalise (binance._normalise symbol) = binance._normalise symbol
  /\ binance.supports (binance._normalise symbol) = binance.supports symbol.
Proof.
  assert (H : binance._normalise (binance._normalise symbol)
              = binance._normalise symbol).
  { unfold binance._normalise, strip.
    set (t := remove_char "-" (remove_char "/" (upper symbol))).
    assert (Hup : upper (rstrip (lstrip t)) = rstrip (lstrip t)).
    { rewrite upper_rstrip, upper_lstrip. subst t.
      rewrite (upper_remove_char "-") by apply upper_ascii_hyphen.
      rewrite (upper_remove_char "/") by apply upper_ascii_slash.
      rewrite upper_idem. reflexivity. }
    rewrite Hup.
    rewrite (remove_char_absent "/").
    2:{ apply all_chars_rstrip, all_chars_lstrip. subst t.
        apply all_chars_remove_char, remove_char_removes. }
    rewrite (remove_char_absent "-").
    2:{ apply all_chars_rstrip, all_chars_lstrip. subst t.
        apply remove_char_removes. }
    apply (strip_idem t). }
  split; [exact H |]. unfold binance.supports. rewrite H. reflexivity.
Qed.

End Normalise.

(* ===================================================================== *)
(** ** What every returned candle satisfies                              *)
(* ===================================================================== *)

Section Validity.

Variable w : World.

Lemma omap_ok_Forall {R A : Type} (build : R -> pyres A) (P : A -> Prop) :
  (forall row c, build row = Ok c -> P c) ->
  forall rows, Forall P (omap (fun row => ok_value (build row)) rows).
Proof.
  intros Hbuild rows. unfold omap.
  induction rows as [| row rows IH]; simpl; [constructor |].
  destruct (build row) as [c |] eqn:Hrow; simpl; [| exact IH].
  constructor; [exact (Hbuild _ _ Hrow) | exact IH].
Qed.

Lemma binance_candle_well_formed (row : kline) (c : Candle) :
  binance.candle_of_row w row = Ok c -> well_formed c.
Proof.
  unfold binance.candle_of_row. intros H. invert_binds H.
  exact (new_invariant _ _ _ _ _ _ _ H).
Qed.

Lemma yfinance_candle_well_formed (r : float * gmap string pyval) (c : Candle) :
  yfinance.candle_of_row w r = Ok c -> well_formed c.
Proof.
  unfold yfinance.candle_of_row. destruct r as [ts row]. intros H. invert_binds H.
  exact (new_invariant _ _ _ _ _ _ _ H).
Qed.

Lemma tiingo_candle_well_formed (row : gmap string pyval) (c : Candle) :
  tiingo.candle_of_row w row = Ok c -> well_formed c.
Proof.
  unfold tiingo.candle_of_row. intros H. invert_binds H.
  exact (new_invariant _ _ _ _ _ _ _ H).
Qed.

Lemma finnhub_candle_well_formed (ts os hs ls cs vs : list pyval) (i : nat)
    (c : Candle) :
  finnhub.candle_at w ts os hs ls cs vs i = Ok c -> well_formed c.
Proof.
  unfold finnhub.candle_at. intros H. invert_binds H.
  exact (new_invariant _ _ _ _ _ _ _ H).
Qed.

(** Finnhub: the candles that can be built at the indices of ["t"],
    cut to the last ones. *)
Lemma finnhub_parse_candles (reply : finnhub_reply) (limit : Z) (cs : list Candle) :
  finnhub._parse w (Some reply) limit = Ok (Some cs) ->
  cs = slice_from (- limit)
         (omap (fun i => ok_value
                  (finnhub.candle_at w
                     (default [] (reply !! "t")) (default [] (reply !! "o"))
                     (default [] (reply !! "h")) (default [] (reply !! "l"))
                     (default [] (reply !! "c"))
                     (default (replicate (length (default [] (reply !! "t"))) (PFloat zero))
                              (reply !! "v")) i))
               (seq 0 (length (default [] (reply !! "t"))))).
Proof.
  unfold finnhub._parse. intros H.
  apply bind_Ok_inv in H as (candles & Hc & H). injection H as H.
  apply or_none_Some in H as [-> _].
  apply collect_Ok in Hc. simpl in Hc. subst candles. reflexivity.
Qed.

Lemma provider_result_well_formed (id : provider_id) (symbol interval : string)
    (limit : Z) (cs : list Candle) :
  base.fetch (instance id) w symbol interval limit = Ok (Some cs) ->
  Forall well_formed cs.
Proof.
  destruct id; simpl; intros H.
  - apply binance_fetch_Some in H as (resp & _ & -> & _).
    apply omap_ok_Forall, binance_candle_well_formed.
  - apply yfinance_fetch_Some in H as (? & ? & ? & df & _ & ->).
    apply omap_ok_Forall, yfinance_candle_well_formed.
  - apply tiingo_fetch_Some in H as (? & ? & ? & ? & rows & _ & ->).
    apply omap_ok_Forall, tiingo_candle_well_formed.
  - unfold finnhub.fetch in H.
    destruct (finnhub._RESOLUTION_MAP !! interval); [| discriminate].
    destruct (finnhub.key_missing _); [discriminate |].
    apply bind_Ok_inv in H as (bar_sec & _ & H).
    apply bind_Ok_inv in H as (n & _ & H).
    match type of H with
    | finnhub._parse _ ?raw _ = _ => destruct raw as [reply |] eqn:Hraw
    end; [| discriminate].
    apply finnhub_parse_candles in H. subst cs.
    unfold slice_from. destruct (- limit <? 0); apply Forall_drop;
      apply omap_ok_Forall; intros i c; apply finnhub_candle_well_formed.
Qed.

End Validity.

(** X11. Every candle that the orchestrator returns has passed the
    checks of [__post_init__]: its time is positive, its high is not
    below its low, and its low is at or under its high when neither is
    a NaN. *)
Theorem fetched_candles_are_well_formed (w : World) (symbol interval : string)
    (limit : Z) (cs : list Candle) :
  (registry.run (registry.fetch w symbol interval limit)).1 = Ok (Some cs) ->
  Forall well_formed cs.
Proof.
  unfold registry.run, registry.fetch. intros H.
  destruct (registry.walk w (registry.pick symbol) symbol interval limit [])
    as [res log] eqn:Hwalk.
  simpl in H. subst res.
  apply walk_result_from_chain in Hwalk as (_ & p & Hp & _ & Hf).
  apply pick_instances in Hp as [id ->].
  eapply provider_result_well_formed; eassumption.
Qed.

Lemma fetched_candles_are_well_formed_witness :
  (registry.run (registry.fetch examples.tiingo_answers "AAPL" "1d" 1)).1
  = Ok (Some [examples.candle4])
  /\ Forall well_formed [examples.candle4].
Proof.
  assert (Hrun : (registry.run (registry.fetch examples.tiingo_answers "AAPL" "1d" 1)).1
                 = Ok (Some [examples.candle4]))
    by (vm_compute; reflexivity).
  split; [exact Hrun |].
  exact (fetched_candles_are_well_formed _ _ _ _ _ Hrun).
Defined.

(** X12. Binance answers all or nothing: a list that it returns holds
    one candle for each kline of a reply with status 200, built from
    that kline, in the order of the reply. *)
Theorem binance_builds_every_kline (w : World) (symbol interval : string)
    (limit : Z) (cs : list Candle) :
  binance.fetch w symbol interval limit = Ok (Some cs) ->
  exists resp,
    binance_klines w (binance._normalise symbol) interval (Z.min limit 1000) = Ok resp
    /\ status resp = 200
    /\ Forall2 (fun row c => binance.candle_of_row w row = Ok c) (json resp) cs
    /\ cs <> [].
Proof.
  unfold binance.fetch.
  destruct (bool_decide (interval ∈ binance._VALID_INTERVALS)); simpl; [| discriminate].
  intros H. apply bind_Ok_inv in H as (resp & Hresp & H).
  destruct (Z.eqb_spec (status resp) 200) as [Hs | Hs]; simpl in H; [| discriminate].
  exists resp. split; [assumption |]. split; [assumption |].
  destruct (json resp) as [| row rows] eqn:Hdata; [discriminate |].
  apply bind_Ok_inv in H as (candles & Hc & H). injection H as <-.
  apply comprehension_Forall2 in Hc. split; [assumption |].
  inversion Hc; discriminate.
Qed.

Lemma binance_builds_every_kline_witness :
  binance.fetch examples.binance_newest_first "BTCUSDT" "1h" 2
  = Ok (Some [examples.candle4; examples.candle2])
  /\ exists resp,
       binance_klines examples.binance_newest_first
         (binance._normalise "BTCUSDT") "1h" (Z.min 2 1000) = Ok resp
       /\ status resp = 200
       /\ Forall2 (fun row c => binance.candle_of_row examples.binance_newest_first row = Ok c)
                  (json resp) [examples.candle4; examples.candle2]
       /\ [examples.candle4; examples.candle2] <> [].
Proof.
  assert (Hf : binance.fetch examples.binance_newest_first "BTCUSDT" "1h" 2
               = Ok (Some [examples.candle4; examples.candle2]))
    by (vm_compute; reflexivity).
  split; [exact Hf |].
  exact (binance_builds_every_kline _ _ _ _ _ Hf).
Defined.

(** X13. Binance never asks for more than 1000 klines: every limit of
    1000 or more is answered as a limit of 1000 is. *)
Theorem binance_limit_is_capped (w : World) (symbol interval : string) (limit : Z) :
  1000 <= limit ->
  binance.fetch w symbol interval limit = binance.fetch w symbol interval 1000.
Proof.
  intros H. unfold binance.fetch.
  rewrite (Z.min_r limit 1000) by assumption. reflexivity.
Qed.

Lemma binance_limit_is_capped_witness :
  1000 <= 5000
  /\ binance.fetch examples.binance_newest_first "BTCUSDT" "1h" 5000
     = binance.fetch examples.binance_newest_first "BTCUSDT" "1h" 1000.
Proof.
  split; [lia |]. apply (binance_limit_is_capped _ _ _ 5000). lia.
Defined.

(* ===================================================================== *)
(** ** The yfinance ticker                                               *)
(* ===================================================================== *)

Section Tickers.

Import re.

#[local] Abbreviation chars := list_ascii_of_string.

Lemma length_append (s t : string) :
  String.length (s +:+ t) = (String.length s + String.length t)%nat.
Proof.
  induction s as [| a s IH]; [reflexivity |].
  change (String a s +:+ t) with (String a (s +:+ t)). simpl. rewrite IH. reflexivity.
Qed.

Lemma chars_append (s t : string) : chars (s +:+ t) = chars s ++ chars t.
Proof.
  induction s as [| a s IH]; [reflexivity |].
  change (String a s +:+ t) with (String a (s +:+ t)). simpl. rewrite IH. reflexivity.
Qed.

Lemma substring_all (s : string) : substring 0 (String.length s) s = s.
Proof. induction s as [| a s IH]; simpl; [reflexivity | rewrite IH; reflexivity]. Qed.

Lemma substring_drop_app (s t : string) :
  substring (String.length s) (String.length t) (s +:+ t) = t.
Proof. induction s as [| a s IH]; [apply substring_all | exact IH]. Qed.

Lemma substring_take_app (s t : string) : substring 0 (String.length s) (s +:+ t) = s.
Proof.
  induction s as [| a s IH]; [destruct t; reflexivity |].
  change (String a s +:+ t) with (String a (s +:+ t)). simpl. rewrite IH. reflexivity.
Qed.

Lemma substring_split (n : nat) :
  forall s, (n <= String.length s)%nat ->
    substring 0 n s +:+ substring n (String.length s - n) s = s.
Proof.
  induction n as [| n IH]; intros s Hn.
  - rewrite Nat.sub_0_r, substring_all. destruct s; reflexivity.
  - destruct s as [| a s]; simpl in Hn; [lia |].
    change (String a (substring 0 n s +:+ substring n (String.length s - n) s)
            = String a s).
    rewrite IH by lia. reflexivity.
Qed.

Lemma endswith_app (x q : string) : endswith (x +:+ q) q = true.
Proof.
  unfold endswith. rewrite length_append.
  replace (String.length x + String.length q - String.length q)%nat
    with (String.length x) by lia.
  rewrite substring_drop_app, String.eqb_refl, andb_true_r.
  apply Nat.leb_le. lia.
Qed.

Lemma str_take_app (x q : string) :
  str_take (String.length (x +:+ q) - String.length q) (x +:+ q) = x.
Proof.
  unfold str_take. rewrite length_append.
  replace (String.length x + String.length q - String.length q)%nat
    with (String.length x) by lia.
  apply substring_take_app.
Qed.

(** A string that ends with [q] is what comes before, followed by [q]. *)
Lemma endswith_inv (s q : string) :
  endswith s q = true -> s = str_take (String.length s - String.length q) s +:+ q.
Proof.
  unfold endswith, str_take. intros H. apply andb_true_iff in H as [Hk H].
  apply Nat.leb_le in Hk. apply String.eqb_eq in H.
  pose proof (substring_split (String.length s - String.length q) s ltac:(lia)) as Hs.
  replace (String.length s - (String.length s - String.length q))%nat
    with (String.length q) in Hs by lia.
  rewrite H in Hs. symmetry. exact Hs.
Qed.

(** A string that ends with [t] does not end with [q] when neither of
    [t] and [q] ends with the other. *)
Lemma endswith_apart (x t q : string) :
  ~ chars t `suffix_of` chars q -> ~ chars q `suffix_of` chars t ->
  endswith (x +:+ t) q = false.
Proof.
  intros Htq Hqt. destruct (endswith (x +:+ t) q) eqn:He; [| reflexivity].
  apply endswith_inv in He.
  apply (f_equal chars) in He. rewrite !chars_append in He.
  destruct (suffix_weak_total (chars t) (chars q) (chars x ++ chars t)) as [H | H].
  - exists (chars x). reflexivity.
  - eexists. exact He.
  - contradiction.
  - contradiction.
Qed.

(** No quote currency ends with another one, and none with a line feed. *)
Lemma quotes_apart (q q' : string) :
  q ∈ quotes -> q' ∈ quotes -> q' <> q ->
  ~ chars q `suffix_of` chars q' /\ ~ chars q' `suffix_of` chars q.
Proof.
  intros Hq Hq' Hne. unfold quotes in Hq, Hq'.
  repeat (apply elem_of_cons in Hq as [-> | Hq]); [.. | by apply elem_of_nil in Hq];
    repeat (apply elem_of_cons in Hq' as [-> | Hq']);
    try (by apply elem_of_nil in Hq'); try congruence;
    split; apply (proj1 (bool_decide_eq_false _)); reflexivity.
Qed.


Lemma quotes_upper (q : string) : q ∈ quotes -> upper q = q.
Proof.
  intros Hq. unfold quotes in Hq.
  repeat (apply elem_of_cons in Hq as [-> | Hq]); [.. | by apply elem_of_nil in Hq];
    reflexivity.
Qed.


(** The loop over the quotes: one turn, the quote that is found, and
    no quote found. *)
Lemma strip_quote_cons (quote : string) (rest : list string) (up : string) :
  yfinance.strip_quote (quote :: rest) up
  = if endswith up quote
    then Some (str_take (String.length up - String.length quote) up
               +:+ "-" +:+ yf_quote quote)
    else yfinance.strip_quote rest up.
Proof. reflexivity. Qed.

Lemma strip_quote_app (qs : list string) (x q : string) :
  q ∈ qs ->
  (forall q', q' ∈ qs -> q' <> q -> endswith (x +:+ q) q' = false) ->
  yfinance.strip_quote qs (x +:+ q) = Some (x +:+ "-" +:+ yf_quote q).
Proof.
  induction qs as [| q0 qs IH]; intros Hin Hother.
  - by apply elem_of_nil in Hin.
  - rewrite strip_quote_cons. destruct (decide (q0 = q)) as [-> | Hne].
    + rewrite endswith_app, str_take_app. reflexivity.
    + rewrite (Hother q0) by (assumption || apply list_elem_of_here).
      apply IH.
      * apply elem_of_cons in Hin as [-> | Hin]; [congruence | assumption].
      * intros q' Hq'. apply Hother. apply list_elem_of_further. assumption.
Qed.


(** What the patterns say of a string: inversion of a sequence and of a
    range, and strings of capitals. *)
Lemma lang_seq_inv (r1 r2 : regex) (s : string) :
  lang (Seq r1 r2) s -> exists s1 s2, s = s1 +:+ s2 /\ lang r1 s1 /\ lang r2 s2.
Proof. inversion 1; subst; eauto. Qed.

Lemma lang_rng_inv (lo hi : ascii) (s : string) :
  lang (Rng lo hi) s -> exists c, s = String c EmptyString /\ in_range lo hi c = true.
Proof. inversion 1; subst; eauto. Qed.

Lemma lang_times_rng (lo hi : ascii) (n : nat) :
  forall x, lang (times n (Rng lo hi)) x ->
    all_chars (in_range lo hi) x = true /\ String.length x = n.
Proof.
  induction n as [| n IH]; intros x H; simpl in H.
  - apply lang_eps_inv in H as ->. split; reflexivity.
  - apply lang_seq_inv in H as (s1 & s2 & -> & H1 & H2).
    apply lang_rng_inv in H1 as (c & -> & Hc). apply IH in H2 as [Ha Hl].
    change (String c EmptyString +:+ s2) with (String c s2). simpl.
    rewrite Hc, Ha, Hl. split; reflexivity.
Qed.




End Tickers.

(** X14. Whatever comes before it, a symbol that ends with one of the
    seven quote currencies is sent to yfinance as the upper-cased rest,
    a hyphen and the quote, with USD for the four stablecoins.  The class
    of the symbol plays no part: the stock ticker ABNB is sent as A-BNB. *)
Theorem to_yf_symbol_strips_quote (base quote : string) :
  quote ∈ quotes ->
  yfinance._to_yf_symbol (base +:+ quote) = upper base +:+ "-" +:+ yf_quote quote.
Proof.
  intros Hq. unfold yfinance._to_yf_symbol. cbv zeta.
  rewrite upper_app, (quotes_upper quote Hq).
  change ["USDT"; "USDC"; "BUSD"; "FDUSD"; "BNB"; "ETH"; "BTC"] with quotes.
  rewrite (strip_quote_app quotes (upper base) quote Hq); [reflexivity |].
  intros q' Hq' Hne.
  destruct (quotes_apart quote q' Hq Hq' Hne). apply endswith_apart; assumption.
Qed.

Lemma to_yf_symbol_strips_quote_witness :
  "BNB" ∈ quotes
  /\ classify "abnb" = Stock
  /\ yfinance._to_yf_symbol ("a" +:+ "BNB") = "A-BNB".
Proof.
  assert (Hq : "BNB" ∈ quotes) by (unfold quotes; repeat constructor).
  split; [exact Hq |]. split; [reflexivity |].
  exact (to_yf_symbol_strips_quote "a" "BNB" Hq).
Defined.



(* ===================================================================== *)
(** ** The exceptions that leave a provider                              *)
(* ===================================================================== *)

Section Rounding.










End Rounding.

Section Errors.

Variable w : World.

Lemma bind_Raise_inv {X Y : Type} (m : pyres X) (k : X -> pyres Y) (e : exn) :
  (x ← m; k x) = Raise e -> m = Raise e \/ exists x, m = Ok x /\ k x = Raise e.
Proof.
  destruct m as [x | e']; intros H.
  - right. exists x. split; [reflexivity | exact H].
  - left. change (@Raise Y e' = Raise e) in H. injection H as <-. reflexivity.
Qed.

(** A comprehension raises what one of its rows raises. *)
Lemma comprehension_raises {R A : Type} (build : R -> pyres A) (rows : list R) (e : exn) :
  comprehension build rows = Raise e -> exists row, row ∈ rows /\ build row = Raise e.
Proof.
  induction rows as [| row rows IH]; simpl; [discriminate |]. intros H.
  apply bind_Raise_inv in H; destruct H as [H | (c & _ & H)].
  - exists row. split; [apply list_elem_of_here | assumption].
  - apply bind_Raise_inv in H; destruct H as [H | (cs & _ & H)]; [| discriminate].
    destruct (IH H) as (row' & Hin & Hrow).
    exists row'. split; [apply list_elem_of_further; assumption | assumption].
Qed.

(** What each step of a row can raise. *)
Lemma getitem_raises {A : Type} (l : list A) (i : nat) (e : exn) :
  getitem l i = Raise e -> e = IndexError.
Proof. unfold getitem. destruct (l !! i); congruence. Qed.


Lemma int_of_float_raises (f : float) (e : exn) :
  int_of_float f = Raise e ->
  (e = ValueError /\ is_nan f = true) \/ (e = OverflowError /\ is_nan f = false).
Proof. destruct f; simpl; intros [= <-]; auto. Qed.

Lemma float_of_int_raises (z : Z) (e : exn) : float_of_int z = Raise e -> e = OverflowError.
Proof. unfold float_of_int. destruct (binary_normalize _ _ _ _ _); congruence. Qed.

Lemma py_int_raises (v : pyval) (e : exn) :
  py_int w v = Raise e -> e = TypeError \/ e = ValueError \/ e = OverflowError.
Proof.
  destruct v as [| b | z | f | s]; simpl; try (intros [= <-]; auto).
  - intros H. apply int_of_float_raises in H as [[-> _] | [-> _]]; auto.
  - destruct (int_of_str w s); intros [= <-]; auto.
Qed.

Lemma py_float_raises (v : pyval) (e : exn) :
  py_float w v = Raise e -> e = TypeError \/ e = ValueError \/ e = OverflowError.
Proof.
  destruct v as [| b | z | f | s]; simpl; try (intros [= <-]; auto).
  - intros H. apply float_of_int_raises in H as ->. auto.
  - destruct (float_of_str w s); intros [= <-]; auto.
Qed.



Lemma new_raises (t : Z) (o h l c v : float) (e : exn) :
  models.new t o h l c v = Raise e -> e = ValueError.
Proof. intros H. apply new_Raise_iff in H as [-> _]. reflexivity. Qed.





(** [row[i]]: only a row that is an object raises a [KeyError]. *)
Lemma subscript_raises (row : kline) (i : nat) (e : exn) :
  subscript row i = Raise e ->
  e = IndexError \/ e = TypeError
  \/ (e = KeyError /\ exists fields, row = KObject fields).
Proof.
  destruct row as [items | fields | v]; simpl.
  - intros H. apply getitem_raises in H. auto.
  - intros [= <-]. eauto.
  - destruct v as [| b | z | f | s]; try (intros [= <-]; auto).
    destruct (String.get i s); intros [= <-]; auto.
Qed.

(** What one row, and one index, can raise. *)
Lemma binance_row_raises (row : kline) (e : exn) :
  binance.candle_of_row w row = Raise e ->
  e = IndexError \/ e = TypeError \/ e = ValueError \/ e = OverflowError
  \/ (e = KeyError /\ exists fields, row = KObject fields).
Proof.
  unfold binance.candle_of_row. intros H.
  repeat (apply bind_Raise_inv in H; destruct H as [H | (? & _ & H)];
          [first [apply py_int_raises in H; one_of H
                 | apply py_float_raises in H; one_of H
                 | apply subscript_raises in H;
                   destruct H as [-> | [-> | [-> Hobj]]]; auto 10] |]).
  apply new_raises in H. one_of H.
Qed.





End Errors.



(** X17. An exception that leaves Binance is the one that the request
    raised, or comes from a row of a reply with status 200: an
    [IndexError] for a row that is too short, a [TypeError], a
    [ValueError] or an [OverflowError] for a row, a field or a candle
    that is refused, and a [KeyError] for a row that is a JSON object
    and for no other.  Nothing is caught, and no candle is returned. *)
Theorem binance_raises_only (w : World) (symbol interval : string) (limit : Z)
    (e : exn) :
  binance.fetch w symbol interval limit = Raise e ->
  binance_klines w (binance._normalise symbol) interval (Z.min limit 1000) = Raise e
  \/ exists resp row,
       binance_klines w (binance._normalise symbol) interval (Z.min limit 1000) = Ok resp
       /\ status resp = 200
       /\ row ∈ json resp
       /\ binance.candle_of_row w row = Raise e
       /\ (e = IndexError \/ e = TypeError \/ e = ValueError \/ e = OverflowError
           \/ (e = KeyError /\ exists fields, row = KObject fields)).
Proof.
  unfold binance.fetch.
  destruct (bool_decide (interval ∈ binance._VALID_INTERVALS)); simpl; [| discriminate].
  intros H. apply bind_Raise_inv in H; destruct H as [H | (resp & Hresp & H)]; [left; exact H |].
  right. destruct (Z.eqb_spec (status resp) 200) as [Hs | Hs]; simpl in H;
    [| discriminate].
  destruct (json resp) as [| row rows] eqn:Hdata; [discriminate |].
  apply bind_Raise_inv in H; destruct H as [H | (? & _ & H)]; [| discriminate].
  apply comprehension_raises in H as (row' & Hin & Hrow).
  exists resp, row'. rewrite Hdata.
  repeat (split; [assumption |]). apply (binance_row_raises w row' e Hrow).
Qed.

Lemma binance_raises_only_witness :
  binance.fetch examples.binance_bad_row "BTCUSDT" "1h" 5 = Raise ValueError
  /\ binance.fetch replies.object_row "BTCUSDT" "1h" 5 = Raise KeyError
  /\ (binance_klines replies.object_row (binance._normalise "BTCUSDT") "1h"
        (Z.min 5 1000) = Raise KeyError
      \/ exists resp row,
           binance_klines replies.object_row (binance._normalise "BTCUSDT") "1h"
             (Z.min 5 1000) = Ok resp
           /\ status resp = 200
           /\ row ∈ json resp
           /\ binance.candle_of_row replies.object_row row = Raise KeyError
           /\ (KeyError = IndexError \/ KeyError = TypeError
               \/ KeyError = ValueError \/ KeyError = OverflowError
               \/ (KeyError = KeyError /\ exists fields, row = KObject fields))).
Proof.
  assert (Hf : binance.fetch replies.object_row "BTCUSDT" "1h" 5 = Raise KeyError)
    by (vm_compute; reflexivity).
  split; [vm_compute; reflexivity |]. split; [exact Hf |].
  exact (binance_raises_only _ _ _ _ _ Hf).
Defined.

(* ===================================================================== *)
(** ** The arrays of a Finnhub reply                                     *)
(* ===================================================================== *)

Section Arrays.

Variable w : World.

Lemma getitem_Ok_lt {A : Type} (l : list A) (i : nat) (a : A) :
  getitem l i = Ok a -> (i < length l)%nat.
Proof.
  unfold getitem. destruct (l !! i) eqn:H; [| discriminate].
  intros _. eapply lookup_lt_Some. eassumption.
Qed.

(** A candle is built at an index that all five arrays have. *)
Lemma candle_at_in_range (ts os hs ls cs vs : list pyval) (i : nat) (c : Candle) :
  finnhub.candle_at w ts os hs ls cs vs i = Ok c ->
  (i < length ts /\ i < length os /\ i < length hs /\ i < length ls /\ i < length cs)%nat.
Proof.
  unfold finnhub.candle_at. intros H. invert_binds H.
  repeat match goal with
         | Hg : getitem _ _ = Ok _ |- _ => apply getitem_Ok_lt in Hg
         end.
  repeat split; assumption.
Qed.

(** Its volume is zero when the volumes are zeros as far as they go. *)
Lemma candle_at_volume (ts os hs ls cs vs : list pyval) (i : nat) (c : Candle) :
  finnhub.candle_at w ts os hs ls cs vs i = Ok c ->
  (forall v, vs !! i = Some v -> v = PFloat zero) ->
  volume c = zero.
Proof.
  unfold finnhub.candle_at. intros H Hzero. invert_binds H.
  apply new_Ok_iff in H as (_ & _ & ->). simpl.
  match goal with
  | Hif : (if _ then _ else _) = Ok _ |- _ => rename Hif into Hv
  end.
  destruct (_ <? _)%nat; [| injection Hv as <-; reflexivity].
  apply bind_Ok_inv in Hv as (vi & Hvi & Hv).
  unfold getitem in Hvi. destruct (vs !! i) as [v |]; [| discriminate].
  injection Hvi as <-. rewrite (Hzero v eq_refl) in Hv.
  injection Hv as <-. reflexivity.
Qed.

Lemma omap_seq_bounded {B : Type} (f : nat -> option B) (m : nat) :
  (forall i, is_Some (f i) -> (i < m)%nat) ->
  forall n a, (length (omap f (seq a n)) <= m - a)%nat.
Proof.
  intros Hf. unfold omap. induction n as [| n IH]; intros a; simpl; [lia |].
  specialize (IH (S a)). destruct (f a) as [b |] eqn:Hfa; simpl; [| lia].
  assert (a < m)%nat by (apply Hf; rewrite Hfa; eauto). lia.
Qed.

End Arrays.

(** X18. Finnhub builds a candle only at an index that the five arrays
    ["t"], ["o"], ["h"], ["l"] and ["c"] all have: a reply whose arrays
    differ in length gives at most as many candles as the shortest of
    them holds, and the missing entries are no error. *)
Theorem parse_stops_at_shortest_array (w : World) (reply : finnhub_reply) (limit : Z)
    (cs : list Candle) :
  finnhub._parse w (Some reply) limit = Ok (Some cs) ->
  (length cs <= length (default [] (reply !! "t"))
   /\ length cs <= length (default [] (reply !! "o"))
   /\ length cs <= length (default [] (reply !! "h"))
   /\ length cs <= length (default [] (reply !! "l"))
   /\ length cs <= length (default [] (reply !! "c")))%nat.
Proof.
  intros H. apply finnhub_parse_candles in H. subst cs.
  match goal with
  | |- context [slice_from _ (omap ?f ?l)] => set (build := f); set (built := omap build l)
  end.
  assert (Hcut : (length (slice_from (- limit) built) <= length built)%nat)
    by apply sublist_length, slice_from_sublist.
  assert (Hrange : forall i, is_Some (build i) ->
            (i < length (default [] (reply !! "t"))
             /\ i < length (default [] (reply !! "o"))
             /\ i < length (default [] (reply !! "h"))
             /\ i < length (default [] (reply !! "l"))
             /\ i < length (default [] (reply !! "c")))%nat).
  { intros i [c Hc]. subst build. cbv beta in Hc.
    destruct (finnhub.candle_at _ _ _ _ _ _ _ i) as [c' |] eqn:Hat; [| discriminate].
    exact (candle_at_in_range w _ _ _ _ _ _ _ _ Hat). }
  assert (Hlen : forall m, (forall i, is_Some (build i) -> (i < m)%nat) ->
            (length built <= m)%nat).
  { intros m Hm. subst built.
    pose proof (omap_seq_bounded build m Hm
                  (length (default [] (reply !! "t"))) 0%nat). lia. }
  repeat split; (etransitivity; [exact Hcut |]); apply Hlen; intros i Hi;
    apply Hrange in Hi; tauto.
Qed.

Lemma parse_stops_at_shortest_array_witness :
  finnhub._parse examples.silent (Some replies.short_opens) 5
  = Ok (Some [replies.candle2_no_volume])
  /\ (length [replies.candle2_no_volume]
      <= length (default [] (replies.short_opens !! "o")))%nat.
Proof.
  assert (H : finnhub._parse examples.silent (Some replies.short_opens) 5
              = Ok (Some [replies.candle2_no_volume])) by (vm_compute; reflexivity).
  split; [exact H |].
  exact (proj1 (proj2 (parse_stops_at_shortest_array _ _ _ _ H))).
Defined.

(** X19. When a Finnhub reply has no ["v"] array, every candle made of
    it has the volume 0.0. *)
Theorem parse_without_volumes (w : World) (reply : finnhub_reply) (limit : Z)
    (cs : list Candle) :
  reply !! "v" = None ->
  finnhub._parse w (Some reply) limit = Ok (Some cs) ->
  Forall (fun c => volume c = zero) cs.
Proof.
  intros Hv H. apply finnhub_parse_candles in H. subst cs. rewrite Hv.
  unfold slice_from. destruct (- limit <? 0); apply Forall_drop;
    apply omap_ok_Forall; intros i c Hc;
    apply (candle_at_volume w _ _ _ _ _ _ _ _ Hc);
    intros v Hlook; apply lookup_replicate in Hlook as [-> _]; reflexivity.
Qed.

Lemma parse_without_volumes_witness :
  replies.short_opens !! "v" = None
  /\ finnhub._parse examples.silent (Some replies.short_opens) 5
     = Ok (Some [replies.candle2_no_volume])
  /\ Forall (fun c => volume c = zero) [replies.candle2_no_volume].
Proof.
  assert (Hv : replies.short_opens !! "v" = None) by (vm_compute; reflexivity).
  assert (H : finnhub._parse examples.silent (Some replies.short_opens) 5
              = Ok (Some [replies.candle2_no_volume])) by (vm_compute; reflexivity).
  split; [exact Hv |]. split; [exact H |].
  exact (parse_without_volumes _ _ _ _ Hv H).
Defined.

(* ===================================================================== *)
(** ** The patterns that exclude one another                             *)
(* ===================================================================== *)

Section Disjoint.

Import re.

#[local] Abbreviation stock_body :=
  (Alt (Seq (Chr "^") (at_least 1 upper_letter)) (between 1 5 upper_letter)).
#[local] Abbreviation intl_body :=
  (Seq (between 1 7 (Alt upper_letter digit))
       (Seq (Chr ".") (between 1 3 upper_letter))).
#[local] Abbreviation forex_body := (times 6 upper_letter).
#[local] Abbreviation no_dot := (fun c : ascii => negb (Ascii.eqb c ".")).

Lemma lang_alt_inv (r1 r2 : regex) (s : string) :
  lang (Alt r1 r2) s -> lang r1 s \/ lang r2 s.
Proof. inversion 1; subst; auto. Qed.

Lemma lang_chr_inv (c : ascii) (s : string) : lang (Chr c) s -> s = String c EmptyString.
Proof. inversion 1; reflexivity. Qed.

Lemma lang_upto_rng (lo hi : ascii) (n : nat) :
  forall x, lang (upto n (Rng lo hi)) x -> (String.length x <= n)%nat.
Proof.
  induction n as [| n IH]; intros x H; simpl in H.
  - apply lang_eps_inv in H as ->. reflexivity.
  - apply lang_alt_inv in H as [H | H].
    + apply lang_eps_inv in H as ->. simpl. lia.
    + apply lang_seq_inv in H as (s1 & s2 & -> & H1 & H2).
      apply lang_rng_inv in H1 as (c & -> & _). apply IH in H2.
      change (String c EmptyString +:+ s2) with (String c s2). simpl. lia.
Qed.

Lemma lang_between_rng (lo hi : ascii) (m n : nat) (x : string) :
  lang (between m n (Rng lo hi)) x -> (String.length x <= m + (n - m))%nat.
Proof.
  intros H. apply lang_seq_inv in H as (s1 & s2 & -> & H1 & H2).
  apply lang_times_rng in H1 as [_ H1]. apply lang_upto_rng in H2.
  rewrite length_append. lia.
Qed.

(** One string under two patterns: what each pattern read of it is the
    same, line feed apart. *)
Lemma same_body_string (x1 x2 s : string) :
  all_chars symbol_char x1 = true -> all_chars symbol_char x2 = true ->
  s = x1 \/ s = x1 +:+ nl -> s = x2 \/ s = x2 +:+ nl -> x1 = x2.
Proof.
  intros H1 H2 [-> | ->] [E | E].
  - exact E.
  - rewrite E, all_chars_app in H1.
    change (all_chars symbol_char nl) with false in H1.
    rewrite andb_false_r in H1. discriminate.
  - rewrite <- E, all_chars_app in H2.
    change (all_chars symbol_char nl) with false in H2.
    rewrite andb_false_r in H2. discriminate.
  - apply append_line_feed_inj. exact E.
Qed.

Lemma intl_has_dot (x : string) : lang intl_body x -> all_chars no_dot x = false.
Proof.
  intros H. apply lang_seq_inv in H as (s1 & s23 & -> & _ & H).
  apply lang_seq_inv in H as (s2 & s3 & -> & H & _).
  apply lang_chr_inv in H as ->.
  rewrite all_chars_app. change (String "." EmptyString +:+ s3) with (String "." s3).
  change (all_chars no_dot (String "." s3)) with (false && all_chars no_dot s3).
  apply andb_false_r.
Qed.

Lemma stock_not_forex (x : string) : lang stock_body x -> lang forex_body x -> False.
Proof.
  intros Hs Hf. apply lang_times_rng in Hf as [Hcap Hlen].
  apply lang_alt_inv in Hs as [Hs | Hs].
  - apply lang_seq_inv in Hs as (s1 & s2 & -> & Hs & _).
    apply lang_chr_inv in Hs as ->.
    change (String "^" EmptyString +:+ s2) with (String "^" s2) in Hcap.
    change (all_chars (in_range "A" "Z") (String "^" s2))
      with (false && all_chars (in_range "A" "Z") s2) in Hcap.
    discriminate.
  - apply lang_between_rng in Hs. simpl in Hs. lia.
Qed.

End Disjoint.

(** X20. No string is matched by two of the stock, international-stock
    and forex patterns.  Of the four tests of [pick], only the crypto
    test can take a symbol away from another one. *)
Theorem later_patterns_are_disjoint (s : string) :
  re.match_ registry._STOCK_RE s && re.match_ registry._INTL_STOCK_RE s = false
  /\ re.match_ registry._STOCK_RE s && re.match_ registry._FOREX_RE s = false
  /\ re.match_ registry._INTL_STOCK_RE s && re.match_ registry._FOREX_RE s = false.
Proof.
  assert (Hstock : re.match_ registry._STOCK_RE s = true ->
            exists x, re.lang
                        (re.Alt (re.Seq (re.Chr "^") (re.at_least 1 re.upper_letter))
                                (re.between 1 5 re.upper_letter)) x
                      /\ all_chars symbol_char x = true /\ (s = x \/ s = x +:+ nl))
    by (apply symbol_match; reflexivity).
  assert (Hintl : re.match_ registry._INTL_STOCK_RE s = true ->
            exists x, re.lang
                        (re.Seq (re.between 1 7 (re.Alt re.upper_letter re.digit))
                                (re.Seq (re.Chr ".") (re.between 1 3 re.upper_letter))) x
                      /\ all_chars symbol_char x = true /\ (s = x \/ s = x +:+ nl))
    by (apply symbol_match; reflexivity).
  assert (Hforex : re.match_ registry._FOREX_RE s = true ->
            exists x, re.lang (re.times 6 re.upper_letter) x
                      /\ all_chars symbol_char x = true /\ (s = x \/ s = x +:+ nl))
    by (apply symbol_match; reflexivity).
  split; [| split].
  - destruct (re.match_ registry._STOCK_RE s); [| reflexivity].
    destruct (re.match_ registry._INTL_STOCK_RE s); [exfalso | reflexivity].
    destruct (Hstock eq_refl) as (x1 & L1 & C1 & S1).
    destruct (Hintl eq_refl) as (x2 & L2 & C2 & S2).
    pose proof (same_body_string _ _ _ C1 C2 S1 S2) as <-.
    apply intl_has_dot in L2.
    rewrite (within_lang (fun c => negb (Ascii.eqb c ".")) _ _ L1 eq_refl) in L2.
    discriminate.
  - destruct (re.match_ registry._STOCK_RE s); [| reflexivity].
    destruct (re.match_ registry._FOREX_RE s); [exfalso | reflexivity].
    destruct (Hstock eq_refl) as (x1 & L1 & C1 & S1).
    destruct (Hforex eq_refl) as (x2 & L2 & C2 & S2).
    pose proof (same_body_string _ _ _ C1 C2 S1 S2) as <-.
    exact (stock_not_forex _ L1 L2).
  - destruct (re.match_ registry._INTL_STOCK_RE s); [| reflexivity].
    destruct (re.match_ registry._FOREX_RE s); [exfalso | reflexivity].
    destruct (Hintl eq_refl) as (x1 & L1 & C1 & S1).
    destruct (Hforex eq_refl) as (x2 & L2 & C2 & S2).
    pose proof (same_body_string _ _ _ C1 C2 S1 S2) as <-.
    apply intl_has_dot in L1.
    rewrite (within_lang (fun c => negb (Ascii.eqb c ".")) _ _ L2 eq_refl) in L1.
    discriminate.
Qed.
